(** * A shallow embedding of the [myshell] command interpreter (ceng322_pa2.c)

    The development follows the C source function by function:
    [add_to_history], [change_directory], [execute_builtin_command],
    [run_sequence_command], [process_command_line] and [main].

    - C strings are [string]; a [char *] slot of an argument array is a
      [cptr]: uninitialised, [NULL], or a pointer to a token.
    - The three [char *x[MAX_ARGS]] arrays are lists of [MAX_ARGS] cells
      updated by index; a store at an index outside the array is undefined
      behaviour in C and is reported as the fault [OutOfBounds].
    - The counters [i], [j] and [history_count] are [nat]: they are bounded
      by the number of tokens of a line and by [HISTORY_SIZE], far from the
      range of [int].
    - Everything the operating system decides ([fork], [pipe], [waitpid],
      [execvp], [getenv], [getcwd], [chdir], [malloc]) is read from an
      oracle carried by the [world]; every system call and every output is
      appended to the world's [trace].  [waitpid] on a child of the
      interpreter is taken to succeed.
    - One run of the embedding follows one process: in the parent [fork]
      answers a pid, and the child is the run in which that [fork]
      answers 0. *)

From Stdlib Require Import ZArith String Ascii List Lia Bool.
From stdpp Require Import base list strings.

Local Open Scope string_scope.
Local Open Scope Z_scope.
Local Open Scope nat_scope.
Local Open Scope list_scope.

(** ** Constants of the source *)

Definition MAX_COMMAND_LENGTH : nat := 100.
Definition MAX_ARGS : nat := 11.
Definition HISTORY_SIZE : nat := 10.
Definition EXIT_FAILURE : Z := 1%Z.
Definition STDIN_FILENO : Z := 0%Z.
Definition STDOUT_FILENO : Z := 1%Z.

(** ** Argument arrays *)

Inductive cptr : Type :=
| Undef                 (* never written: indeterminate value *)
| NULL
| Tok (s : string).     (* pointer into the command buffer *)

Abbreviation argv := (list cptr).

Definition fresh_argv : argv := replicate MAX_ARGS Undef.

Inductive array_id : Type := Aleft_args | Aright_args | Asecond_command.

Inductive fault : Type :=
| OutOfBounds (a : array_id) (k : nat)   (* store past the end of an array *)
| UninitRead                             (* read of an indeterminate pointer *)
| NullDeref.                             (* NULL passed where a string is read *)

Inductive res (A : Type) : Type :=
| OK (a : A)
| UB (f : fault).
Arguments OK {A} a.
Arguments UB {A} f.

Definition res_bind {A B} (m : res A) (k : A -> res B) : res B :=
  match m with
  | OK a => k a
  | UB f => UB f
  end.

Notation "'do' x <- m ; k" := (res_bind m (fun x => k))
  (at level 10, x name, m at level 100, k at level 200).

(** [arr[k] = v] on an array of [MAX_ARGS] cells. *)
Definition store (a : array_id) (arr : argv) (k : nat) (v : cptr) : res argv :=
  if k <? MAX_ARGS then OK (<[k := v]> arr) else UB (OutOfBounds a k).

(** The leading tokens of an array: those before the first cell that is not
    a token.  This is a view: it does not tell a [NULL] end marker from an
    uninitialised cell; [c_argv] below does. *)
Fixpoint argv_list (arr : argv) : list string :=
  match arr with
  | Tok s :: rest => s :: argv_list rest
  | _ => []
  end.

(** ** Tokenizer: successive [strtok(_, " \t\n")] calls *)

Definition is_delim (c : ascii) : bool :=
  (Ascii.eqb c " " || Ascii.eqb c "009" || Ascii.eqb c "010")%char.

(** [tok] is the token being accumulated. *)
Fixpoint strtok_from (s : string) (tok : string) : list string :=
  match s with
  | EmptyString => if String.eqb tok "" then [] else [tok]
  | String c s' =>
      if is_delim c
      then (if String.eqb tok "" then strtok_from s' ""
            else tok :: strtok_from s' "")
      else strtok_from s' (tok +:+ String c EmptyString)
  end.

Definition strtok (command : string) : list string := strtok_from command "".

(** ** Command classifier: the locals of [process_command_line] *)

Record locals : Type := mkLocals {
  left_args : argv;
  right_args : argv;
  second_command : argv;
  i : nat;
  j : nat;
  in_pipe : bool;
  background : bool;
  has_second_command : bool
}.

(** Line 130-135: arrays uninitialised, counters and flags zero. *)
Definition init_locals : locals :=
  mkLocals fresh_argv fresh_argv fresh_argv 0 0 false false false.

Inductive loop_ctl : Type :=
| Break (l : locals)
| Continue (l : locals).

(** Lines 142-161: the body of the [while (token != NULL)] loop. *)
Definition loop_body (token : string) (l : locals) : res loop_ctl :=
  if String.eqb token "&" && negb (in_pipe l) && negb (has_second_command l) then
    (* background = 1; break; *)
    OK (Break (mkLocals (left_args l) (right_args l) (second_command l)
                        (i l) (j l) (in_pipe l) true (has_second_command l)))
  else if String.eqb token "|" then
    (* in_pipe = 1; left_args[j] = NULL; j = 0; *)
    do la <- store Aleft_args (left_args l) (j l) NULL;
    OK (Continue (mkLocals la (right_args l) (second_command l)
                           (i l) 0 true (background l) (has_second_command l)))
  else if String.eqb token "&&" then
    (* left_args[j] = NULL; i = 0; has_second_command = 1; *)
    do la <- store Aleft_args (left_args l) (j l) NULL;
    OK (Continue (mkLocals la (right_args l) (second_command l)
                           0 (j l) (in_pipe l) (background l) true))
  else if in_pipe l then
    (* right_args[j++] = token; *)
    do ra <- store Aright_args (right_args l) (j l) (Tok token);
    OK (Continue (mkLocals (left_args l) ra (second_command l)
                           (i l) (S (j l)) (in_pipe l) (background l)
                           (has_second_command l)))
  else if has_second_command l then
    (* second_command[i++] = token; *)
    do sc <- store Asecond_command (second_command l) (i l) (Tok token);
    OK (Continue (mkLocals (left_args l) (right_args l) sc
                           (S (i l)) (j l) (in_pipe l) (background l)
                           (has_second_command l)))
  else
    (* left_args[j++] = token; *)
    do la <- store Aleft_args (left_args l) (j l) (Tok token);
    OK (Continue (mkLocals la (right_args l) (second_command l)
                           (i l) (S (j l)) (in_pipe l) (background l)
                           (has_second_command l))).

(** Lines 140-163: the loop over the tokens [strtok] hands out. *)
Fixpoint scan (tokens : list string) (l : locals) : res locals :=
  match tokens with
  | [] => OK l
  | token :: rest =>
      match loop_body token l with
      | UB f => UB f
      | OK (Break l') => OK l'
      | OK (Continue l') => scan rest l'
      end
  end.

(** Lines 164-166: the three end markers written after the loop. *)
Definition terminate_lists (l : locals) : res locals :=
  do la <- store Aleft_args (left_args l) (j l) NULL;
  do ra <- store Aright_args (right_args l) (j l) NULL;
  do sc <- store Asecond_command (second_command l) (i l) NULL;
  OK (mkLocals la ra sc (i l) (j l) (in_pipe l) (background l)
               (has_second_command l)).

(** Lines 135-166 without the history call: the Parsed Line of a token list. *)
Definition classify_tokens (tokens : list string) : res locals :=
  do l <- scan tokens init_locals;
  terminate_lists l.

Definition classify (command : string) : res locals :=
  classify_tokens (strtok command).


(** [arr[k]] read as a pointer value. *)
Definition load (arr : argv) (k : nat) : res cptr :=
  match arr !! k with
  | Some Undef | None => UB UninitRead
  | Some c => OK c
  end.

(** ** The process and its environment *)

(** What [waitpid] stores in [status]. *)
Inductive wstatus : Type :=
| Exited (code : Z)      (* normal termination, [exit(code)] *)
| Signaled (sig : Z).    (* killed by a signal *)

Definition WIFEXITED (status : wstatus) : bool :=
  match status with Exited _ => true | Signaled _ => false end.

Definition WEXITSTATUS (status : wstatus) : Z :=
  match status with Exited code => code | Signaled _ => 0%Z end.

(** Arguments of a [printf]; format strings are kept as the source writes
    them, escape sequences included. *)
Inductive parg : Type := PInt (n : Z) | PStr (s : string).

Inductive event : Type :=
| Eprintf (fmt : string) (args : list parg)
| Efprintf_stderr (msg : string)
| Eperror (s : string)
| Efflush
| Efork (ret : Z)
| Epipe (ret : option (Z * Z))
| Eclose (fd : Z)
| Edup2 (oldfd newfd : Z)
| Eexecvp (file : cptr) (args : argv)
| Ewaitpid (pid : Z)
| Eexit (code : Z)
| Egetenv (name : string)
| Egetcwd
| Echdir (path : string)
| Esetenv (name value : string)
| Emalloc
| Efree.

(** The answers of the operating system. *)
Record oracle : Type := mkOracle {
  os_pipe : option (Z * Z);       (* [pipe]: the two descriptors, or failure *)
  os_wait : Z -> wstatus;         (* [waitpid(pid, &status, 0)] *)
  os_exec : string -> bool;       (* does [execvp] of this file succeed *)
  os_home : option string;        (* [getenv("HOME")] *)
  os_getcwd : option string;      (* [getcwd] *)
  os_chdir : string -> bool;      (* does [chdir] to this path succeed *)
  os_malloc : bool
}.

Record world : Type := mkWorld {
  history : list string;          (* char history[HISTORY_SIZE][...] *)
  history_count : nat;
  forks : list Z;                 (* return values of the coming [fork] calls;
                                     0 means this process is the child *)
  os : oracle;
  trace : list event              (* system calls and output so far *)
}.

Inductive halt : Type :=
| Hexit (code : Z)      (* [exit] was called *)
| Hexec                 (* [execvp] replaced the process image *)
| Hfault (f : fault).   (* undefined behaviour *)

Inductive result (A : Type) : Type :=
| Ret (a : A) (w : world)
| Halt (h : halt) (w : world).
Arguments Ret {A} a w.
Arguments Halt {A} h w.

Definition M (A : Type) : Type := world -> result A.

Definition ret {A} (a : A) : M A := fun w => Ret a w.

Definition bind {A B} (m : M A) (k : A -> M B) : M B :=
  fun w => match m w with
           | Ret a w' => k a w'
           | Halt h w' => Halt h w'
           end.

Notation "'let*' x ':=' m 'in' k" := (bind m (fun x => k))
  (at level 10, x name, m at level 100, k at level 200).
Notation "m '>>' k" := (bind m (fun _ => k))
  (at level 90, right associativity).

Definition world_of {A} (r : result A) : world :=
  match r with Ret _ w => w | Halt _ w => w end.

Definition lift {A} (r : res A) : M A :=
  fun w => match r with OK a => Ret a w | UB f => Halt (Hfault f) w end.

Definition emit (e : event) : M unit :=
  fun w => Ret tt (mkWorld (history w) (history_count w) (forks w) (os w)
                           (trace w ++ [e])).

Definition ask {A} (f : oracle -> A) : M A := fun w => Ret (f (os w)) w.

Definition printf (fmt : string) (args : list parg) : M unit :=
  emit (Eprintf fmt args).

Definition perror (s : string) : M unit := emit (Eperror s).

(** [fork]: the oracle's next answer, [-1] once it has none left. *)
Definition fork : M Z :=
  fun w => let '(r, rest) := match forks w with
                             | [] => ((-1)%Z, [])
                             | p :: rest => (p, rest)
                             end in
           Ret r (mkWorld (history w) (history_count w) rest (os w)
                          (trace w ++ [Efork r])).

Definition pipe : M (option (Z * Z)) :=
  let* r := ask os_pipe in emit (Epipe r) >> ret r.

Definition waitpid_status (pid : Z) : M wstatus :=
  emit (Ewaitpid pid) >> ask (fun o => os_wait o pid).

Definition waitpid_null (pid : Z) : M unit := emit (Ewaitpid pid).

(** [execvp(file, args)] returns only on failure, and then [-1]. *)
Definition execvp (file : cptr) (args : argv) : M Z :=
  emit (Eexecvp file args) >>
  match file with
  | Tok f => let* ok := ask (fun o => os_exec o f) in
             if ok : bool then (fun w => Halt Hexec w) else ret (-1)%Z
  | NULL => lift (UB NullDeref)
  | Undef => lift (UB UninitRead)
  end.

Definition exit {A} (code : Z) : M A :=
  fun w => Halt (Hexit code)
                (mkWorld (history w) (history_count w) (forks w) (os w)
                         (trace w ++ [Eexit code])).

(** ** History buffer *)

(** [strncpy(dst, command, MAX_COMMAND_LENGTH)] followed by
    [dst[MAX_COMMAND_LENGTH - 1] = 0]: the string left in [dst]. *)
Definition strncpy_terminated (command : string) : string :=
  substring 0 (MAX_COMMAND_LENGTH - 1) command.

(** Lines 20-22: [for (i = 0; i < HISTORY_SIZE - 1; i++)
    strcpy(history[i], history[i + 1])]. *)
Definition shift_history (h : list string) : list string :=
  fold_left (fun h k => <[k := default "" (h !! (k + 1))]> h)
            (seq 0 (HISTORY_SIZE - 1)) h.

(** Lines 17-30 on the two globals. *)
Definition add_to_history_pure (command : string) (hc : list string * nat)
  : list string * nat :=
  let '(h, count) := hc in
  if count =? HISTORY_SIZE then
    (<[HISTORY_SIZE - 1 := strncpy_terminated command]> (shift_history h), count)
  else
    (<[count := strncpy_terminated command]> h, S count).

Definition add_to_history (command : string) : M unit :=
  fun w => let '(h, count) :=
             add_to_history_pure command (history w, history_count w) in
           Ret tt (mkWorld h count (forks w) (os w) (trace w)).

(** Lines 91-94: the lines the [history] builtin prints. *)
Definition history_listing (h : list string) (history_count : nat) : list event :=
  let count := if HISTORY_SIZE <? history_count then HISTORY_SIZE
               else history_count in
  map (fun k => Eprintf "%d: %s\n"
                        [PInt (Z.of_nat (k + 1)); PStr (default "" (h !! k))])
      (seq 0 count).

(** ** Builtins *)

(** Lines 65-72 of [change_directory]. *)
Definition chdir_to (path : string) (allocated : bool) : M unit :=
  emit (Echdir path) >>
  let* ok := ask (fun o => os_chdir o path) in
  (if ok : bool then emit (Esetenv "PWD" path) else perror "chdir") >>
  (if allocated then emit Efree else ret tt).

(** Lines 34-73. *)
Definition change_directory (args : argv) : M unit :=
  let* a1 := lift (load args 1) in
  match a1 with
  | Tok (String "/" _ as p) => chdir_to p false
  | Tok p =>
      emit Egetcwd >>
      let* cwd := ask os_getcwd in
      match cwd with
      | None => perror "getcwd"
      | Some current_directory =>
          emit Emalloc >>
          let* ok := ask os_malloc in
          if ok : bool
          then chdir_to (current_directory +:+ "/" +:+ p) true
          else perror "malloc"
      end
  | _ =>
      emit (Egetenv "HOME") >>
      let* home := ask os_home in
      match home with
      | None => emit (Efprintf_stderr "HOME environment variable not set\n")
      | Some home_directory => chdir_to home_directory false
      end
  end.

(** Lines 76-99.  After [change_directory] the [cd] branch only fills the
    local buffer [full_command], which nothing reads. *)
Definition execute_builtin_command (args : argv) : M unit :=
  let* a0 := lift (load args 0) in
  match a0 with
  | Tok name =>
      if String.eqb name "cd" then change_directory args
      else if String.eqb name "pwd" then
        emit Egetcwd >>
        let* cwd := ask os_getcwd in
        match cwd with
        | Some cwd => printf "%s\n" [PStr cwd]
        | None => ret tt
        end
      else if String.eqb name "history" then
        fun w => Ret tt (mkWorld (history w) (history_count w) (forks w) (os w)
                           (trace w ++ history_listing (history w)
                                                       (history_count w)))
      else if String.eqb name "exit" then
        printf "Exiting...\n" [] >> exit 0%Z
      else ret tt
  | _ => lift (UB NullDeref)   (* strcmp(NULL, ...) *)
  end.

(** ** Process orchestration *)

(** Lines 104-126. *)
Definition run_sequence_command (args : argv) (background : bool) : M Z :=
  let* pid := fork in
  if (pid <? 0)%Z then
    perror "fork" >> ret (-1)%Z
  else if (pid =? 0)%Z then
    let* a0 := lift (load args 0) in
    let* r := execvp a0 args in
    if (r =? -1)%Z then
      emit (Efprintf_stderr "Error: Command not found\n") >> exit EXIT_FAILURE
    else ret 0%Z
  else
    if negb background then
      let* status := waitpid_status pid in
      if WIFEXITED status then ret (WEXITSTATUS status) else ret 0%Z
    else
      printf "Background process with PID: %d\n" [PInt pid] >> ret 0%Z.

(** Line 169-170: the test guarding the builtin dispatch. *)
Definition is_builtin (a0 : cptr) : bool :=
  match a0 with
  | Tok name => String.eqb name "cd" || String.eqb name "pwd"
                || String.eqb name "history" || String.eqb name "exit"
  | _ => false
  end.

(** Lines 175-207: the pipeline branch. *)
Definition run_pipeline (l : locals) : M unit :=
  let* pipefd := pipe in
  match pipefd with
  | None => perror "pipe"
  | Some (pipefd0, pipefd1) =>
      let* pid1 := fork in
      (if (pid1 =? 0)%Z then
         emit (Eclose pipefd0) >>
         emit (Edup2 pipefd1 STDOUT_FILENO) >>
         emit (Eclose pipefd1) >>
         let* a0 := lift (load (left_args l) 0) in
         execvp a0 (left_args l) >>
         perror "execvp" >>
         exit EXIT_FAILURE
       else ret tt) >>
      let* pid2 := fork in
      (if (pid2 =? 0)%Z then
         emit (Eclose pipefd1) >>
         emit (Edup2 pipefd0 STDIN_FILENO) >>
         emit (Eclose pipefd0) >>
         let* a0 := lift (load (right_args l) 0) in
         execvp a0 (right_args l) >>
         perror "execvp" >>
         exit EXIT_FAILURE
       else ret tt) >>
      emit (Eclose pipefd0) >>
      emit (Eclose pipefd1) >>
      if negb (background l) then
        waitpid_null pid1 >> waitpid_null pid2
      else
        printf "Background processes started with PID: %d and %d\n"
               [PInt pid1; PInt pid2]
  end.

(** Lines 168-217: what [process_command_line] does with the Parsed Line. *)
Definition dispatch (l : locals) : M unit :=
  let* a0 := lift (load (left_args l) 0) in
  if is_builtin a0 then
    execute_builtin_command (left_args l)
  else if in_pipe l then
    run_pipeline l
  else if has_second_command l then
    let* exit_status := run_sequence_command (left_args l) (background l) in
    if (exit_status =? 0)%Z then
      run_sequence_command (second_command l) (background l) >> ret tt
    else ret tt
  else
    run_sequence_command (left_args l) (background l) >> ret tt.

(** Lines 129-218. *)
Definition process_command_line (command : string) : M unit :=
  add_to_history command >>
  let* l := lift (classify command) in
  dispatch l.

(** ** The prompt loop *)

(** [command[strcspn(command, "\n")] = 0]. *)
Fixpoint cut_newline (s : string) : string :=
  match s with
  | EmptyString => EmptyString
  | String c s' => if Ascii.eqb c "010" then EmptyString
                   else String c (cut_newline s')
  end.

(** Lines 220-241; [stdin] lists what the successive [fgets] calls read,
    [fgets] answering [NULL] once the list is used up. *)
Fixpoint main (stdin : list string) : M Z :=
  printf "myshell> " [] >>
  emit Efflush >>
  match stdin with
  | [] => ret 0%Z
  | command :: rest =>
      process_command_line (cut_newline command) >> main rest
  end.

(** The state [main] starts in: history zero-filled, nothing traced. *)
Definition init_history : list string := replicate HISTORY_SIZE "".

Definition init_world (fk : list Z) (o : oracle) : world :=
  mkWorld init_history 0 fk o [].

(** An environment in which every system call succeeds and every child
    exits with status [code]. *)
Definition friendly (code : Z) : oracle :=
  mkOracle (Some (3, 4)%Z) (fun _ => Exited code) (fun _ => true)
           (Some "/home/u") (Some "/tmp") (fun _ => true) true.

(** An environment in which every system call succeeds and every child is
    killed by signal [sig]. *)
Definition killed (sig : Z) : oracle :=
  mkOracle (Some (3, 4)%Z) (fun _ => Signaled sig) (fun _ => true)
           (Some "/home/u") (Some "/tmp") (fun _ => true) true.

(** * Predicates and views used in the statements *)

Definition wf_locals (l : locals) : Prop :=
  length (left_args l) = MAX_ARGS /\ length (right_args l) = MAX_ARGS /\
  length (second_command l) = MAX_ARGS.

(** The world once line 137 has recorded the command. *)
Definition after_history (command : string) (w : world) : world :=
  world_of (add_to_history command w).

(** The last [n] elements of a list. *)
Definition lastn {A} (n : nat) (l : list A) : list A := drop (length l - n) l.

(** [add_to_history] applied to each command in turn. *)
Definition add_all (commands : list string) (hc : list string * nat)
  : list string * nat :=
  fold_left (fun hc command => add_to_history_pure command hc) commands hc.

(** The recorded entries, oldest first. *)
Definition entries (hc : list string * nat) : list string := take hc.2 hc.1.

Definition wf_history (hc : list string * nat) : Prop :=
  length hc.1 = HISTORY_SIZE /\ hc.2 <= HISTORY_SIZE.

(** Entries numbered from [k], as the [history] builtin prints them. *)
Fixpoint numbered (k : nat) (es : list string) : list event :=
  match es with
  | [] => []
  | s :: rest =>
      Eprintf "%d: %s\n" [PInt (Z.of_nat k); PStr s] :: numbered (S k) rest
  end.

Definition keeps_history {A} (m : M A) : Prop :=
  forall w, history (world_of (m w)) = history w /\
            history_count (world_of (m w)) = history_count w.

Definition initialised (arr : argv) : Prop :=
  exists c, arr !! 0 = Some c /\ c <> Undef.

Definition heads_inv (l : locals) : Prop :=
  wf_locals l /\
  (initialised (left_args l) \/
   (j l = 0 /\ in_pipe l = false /\ has_second_command l = false)) /\
  (in_pipe l = true -> j l = 0 \/ initialised (right_args l)).

(** No argument cell ever holds an operator token [|] or [&&]. *)
Definition no_operator_cell (c : cptr) : Prop := c <> Tok "|" /\ c <> Tok "&&".

Definition no_operator_cells (l : locals) : Prop :=
  Forall no_operator_cell (left_args l) /\
  Forall no_operator_cell (right_args l) /\
  Forall no_operator_cell (second_command l).

(** A string without space, tab or newline. *)
Fixpoint delim_free (s : string) : bool :=
  match s with
  | EmptyString => true
  | String c s' => negb (is_delim c) && delim_free s'
  end.

(** What [strtok] hands out: non-empty, delimiter-free strings. *)
Definition is_word (t : string) : Prop := t <> "" /\ delim_free t = true.

(** Words separated by single spaces. *)
Fixpoint unwords (ts : list string) : string :=
  match ts with
  | [] => ""
  | t :: rest =>
      match rest with
      | [] => t
      | _ => t +:+ " " +:+ unwords rest
      end
  end.

(** A token that is none of the operators [&], [|], [&&]. *)
Definition ordinary (ts : list string) : Prop :=
  ("&" ∉ ts) /\ ("|" ∉ ts) /\ ("&&" ∉ ts).

(** Events that create, wire up or reap a process. *)
Definition process_event (e : event) : bool :=
  match e with
  | Efork _ | Epipe _ | Eclose _ | Edup2 _ _ | Eexecvp _ _ | Ewaitpid _ => true
  | _ => false
  end.

(** A computation that only adds events other than process events to the
    trace and consumes no [fork] answer. *)
Definition quiet {A} (m : M A) : Prop :=
  forall w, exists tl,
    trace (world_of (m w)) = trace w ++ tl /\
    Forall (fun e => process_event e = false) tl /\
    forks (world_of (m w)) = forks w.

(** Every row of the history array holds a string that fits it. *)
Definition rows_fit (h : list string) : Prop :=
  Forall (fun s => String.length s < MAX_COMMAND_LENGTH) h.

(** A computation that gives control back only in a process where no [fork]
    it made answered 0, i.e. never in a child. *)
Definition parent_only {A} (m : M A) : Prop :=
  forall w, match m w with
            | Ret _ w' => exists tl, trace w' = trace w ++ tl /\ Efork 0 ∉ tl
            | Halt _ _ => True
            end.

(** A computation that never gives control back: it ends in [exit], in a
    successful [execvp] or in a fault. *)
Definition halts {A} (m : M A) : Prop :=
  forall w, exists h w', m w = Halt h w'.

(** The world once [main] has printed and flushed its prompt. *)
Definition prompted (w : world) : world :=
  mkWorld (history w) (history_count w) (forks w) (os w)
          (trace w ++ [Eprintf "myshell> " []; Efflush]).

(** [args[1][0] == '/'] *)
Definition is_absolute (p : string) : bool :=
  match p with
  | String c _ => Ascii.eqb c "/"
  | EmptyString => false
  end.

(** What lines 65-69 add to the trace for [path]. *)
Definition chdir_outcome (o : oracle) (path : string) : list event :=
  [Echdir path;
   if os_chdir o path then Esetenv "PWD" path else Eperror "chdir"].

(** The characters of a string. *)
Fixpoint chars (s : string) : list ascii :=
  match s with
  | EmptyString => []
  | String c s' => c :: chars s'
  end.

(** The argument list a callee reads from an array: the tokens up to the
    [NULL] end marker; there is none when an uninitialised cell or the end
    of the array comes before a [NULL]. *)
Fixpoint c_argv (arr : argv) : option (list string) :=
  match arr with
  | Tok s :: rest =>
      match c_argv rest with
      | Some ts => Some (s :: ts)
      | None => None
      end
  | NULL :: _ => Some []
  | _ => None
  end.

(** No [&] comes before the first operator token: scanned from the initial
    state, the tokens are all consumed (the loop is not left by [break]). *)
Fixpoint scanned_through (ts : list string) : bool :=
  match ts with
  | [] => true
  | t :: rest =>
      if String.eqb t "&" then false
      else if String.eqb t "|" || String.eqb t "&&" then true
      else scanned_through rest
  end.

(** * Properties of the classifier *)

Lemma store_OK a arr k v arr' :
  store a arr k v = OK arr' -> k < MAX_ARGS /\ arr' = <[k := v]> arr.
Proof.
  unfold store. intros Hs.
  destruct (Nat.ltb_spec k MAX_ARGS); inversion Hs; auto.
Qed.

Lemma store_UB a arr k v f :
  store a arr k v = UB f -> MAX_ARGS <= k /\ f = OutOfBounds a k.
Proof.
  unfold store. intros Hs.
  destruct (Nat.ltb_spec k MAX_ARGS); inversion Hs; auto.
Qed.

Lemma store_in_bounds a arr k v :
  k < MAX_ARGS -> store a arr k v = OK (<[k := v]> arr).
Proof.
  intros Hk. unfold store. destruct (Nat.ltb_spec k MAX_ARGS); [reflexivity | lia].
Qed.

(** Case analysis on one run of the loop body that did not fault. *)
Ltac loop_cases H :=
  unfold loop_body in H;
  repeat match type of H with
         | context [String.eqb ?a ?b] =>
             destruct (String.eqb_spec a b); simpl in H
         | context [in_pipe ?l] => destruct (in_pipe l) eqn:?; simpl in H
         | context [has_second_command ?l] =>
             destruct (has_second_command l) eqn:?; simpl in H
         | context [store ?a ?arr ?k ?v] =>
             let E := fresh "Hst" in
             destruct (store a arr k v) eqn:E; simpl in H
         end;
  inversion H; subst; clear H; simpl in *.

(** What one iteration does to the three flags. *)
Lemma loop_body_flags token l c :
  loop_body token l = OK c ->
  match c with
  | Break l' =>
      token = "&" /\ in_pipe l = false /\ has_second_command l = false /\
      in_pipe l' = false /\ has_second_command l' = false /\
      background l' = true
  | Continue l' =>
      background l' = background l /\
      in_pipe l' = (in_pipe l || String.eqb token "|") /\
      has_second_command l' = (has_second_command l || String.eqb token "&&") /\
      (token = "&" -> in_pipe l || has_second_command l = true)
  end.
Proof.
  intros H. loop_cases H; repeat split; auto; try congruence;
    try (intros ->; congruence); rewrite ?orb_true_r, ?orb_false_r; auto.
Qed.

Lemma scan_flags tokens : forall l l',
  scan tokens l = OK l' ->
  (in_pipe l' = true -> in_pipe l = true \/ "|" ∈ tokens) /\
  (has_second_command l' = true -> has_second_command l = true \/ "&&" ∈ tokens) /\
  (in_pipe l = true -> in_pipe l' = true) /\
  (has_second_command l = true -> has_second_command l' = true) /\
  (background l = false -> background l' = true ->
   in_pipe l' = false /\ has_second_command l' = false).
Proof.
  induction tokens as [|t ts IH]; intros l l' H; simpl in H.
  - inversion H; subst. repeat split; auto; congruence.
  - destruct (loop_body t l) as [[lb|lc]|f] eqn:E; try discriminate.
    + inversion H; subst.
      apply loop_body_flags in E as (-> & E1 & E2 & E3 & E4 & E5).
      repeat split; auto; congruence.
    + apply loop_body_flags in E as (Eb & Ep & Es & _).
      destruct (IH _ _ H) as (I1 & I2 & I3 & I4 & I5).
      rewrite Ep in I1, I3. rewrite Es in I2, I4. rewrite Eb in I5.
      repeat split.
      * intros Hp. destruct (I1 Hp) as [Hor|Hin];
          [|right; apply elem_of_cons; auto].
        apply orb_true_iff in Hor as [?|Heq]; [left; auto|].
        apply String.eqb_eq in Heq. subst. right. apply elem_of_cons; auto.
      * intros Hp. destruct (I2 Hp) as [Hor|Hin];
          [|right; apply elem_of_cons; auto].
        apply orb_true_iff in Hor as [?|Heq]; [left; auto|].
        apply String.eqb_eq in Heq. subst. right. apply elem_of_cons; auto.
      * intros Hp. apply I3. rewrite Hp. reflexivity.
      * intros Hp. apply I4. rewrite Hp. reflexivity.
      * apply I5; auto.
      * apply I5; auto.
Qed.

Lemma terminate_lists_flags l p :
  terminate_lists l = OK p ->
  in_pipe p = in_pipe l /\ has_second_command p = has_second_command l /\
  background p = background l /\ i p = i l /\ j p = j l.
Proof.
  unfold terminate_lists. intros H.
  destruct (store Aleft_args _ _ _); simpl in H; try discriminate.
  destruct (store Aright_args _ _ _); simpl in H; try discriminate.
  destruct (store Asecond_command _ _ _); simpl in H; try discriminate.
  inversion H; subst; simpl. repeat split; reflexivity.
Qed.

Lemma classify_tokens_inv tokens p :
  classify_tokens tokens = OK p ->
  exists l, scan tokens init_locals = OK l /\ terminate_lists l = OK p.
Proof.
  unfold classify_tokens. destruct (scan tokens init_locals) eqn:E; simpl;
    [eauto | discriminate].
Qed.

(** Unless the loop is left by [break], scanning a concatenation is scanning
    its parts in turn. *)
Lemma scan_app a : forall b l,
  (in_pipe l || has_second_command l = true \/ "&" ∉ a) ->
  scan (a ++ b) l = res_bind (scan a l) (scan b).
Proof.
  induction a as [|t ts IH]; intros b l Hnb; simpl; [reflexivity|].
  destruct (loop_body t l) as [[lb|lc]|f] eqn:E; simpl; try reflexivity.
  - apply loop_body_flags in E as (-> & E1 & E2 & _).
    destruct Hnb as [Hf|Hn]; [rewrite E1, E2 in Hf; discriminate|].
    exfalso. apply Hn, elem_of_cons; auto.
  - apply IH. apply loop_body_flags in E as (_ & Ep & Es & _).
    destruct Hnb as [Hf|Hn];
      [left|right; intros Hin; apply Hn, elem_of_cons; auto].
    rewrite Ep, Es. apply orb_true_iff in Hf as [->| ->]; simpl;
      rewrite ?orb_true_r; reflexivity.
Qed.

Lemma scan_cons_continue t rest l l' :
  scan (t :: rest) l = OK l' -> t <> "&" ->
  exists l1, loop_body t l = OK (Continue l1) /\ scan rest l1 = OK l'.
Proof.
  simpl. intros H Ht.
  destruct (loop_body t l) as [[lb|lc]|f] eqn:E; try discriminate.
  - apply loop_body_flags in E as (-> & _). congruence.
  - eauto.
Qed.

Lemma res_bind_OK {A B} (m : res A) (k : A -> res B) b :
  res_bind m k = OK b -> exists a, m = OK a /\ k a = OK b.
Proof. destruct m; simpl; [eauto | discriminate]. Qed.

(** Both flags end up set when a [|] that the scan reaches is followed by a
    [&&]. *)
Lemma scan_pipe_then_sequence pre mid post l l' :
  "&" ∉ pre ->
  scan (pre ++ "|" :: mid ++ "&&" :: post) l = OK l' ->
  in_pipe l' = true /\ has_second_command l' = true.
Proof.
  intros Hpre H.
  rewrite scan_app in H by (right; exact Hpre).
  apply res_bind_OK in H as (l1 & _ & H).
  apply scan_cons_continue in H as (l2 & E2 & H); [|discriminate].
  apply loop_body_flags in E2 as (_ & Ep2 & _).
  rewrite orb_true_r in Ep2.
  rewrite scan_app in H by (left; rewrite Ep2; reflexivity).
  apply res_bind_OK in H as (l3 & H3 & H).
  apply scan_flags in H3 as (_ & _ & Hp3 & _).
  apply scan_cons_continue in H as (l4 & E4 & H); [|discriminate].
  apply loop_body_flags in E4 as (_ & Ep4 & Es4 & _).
  rewrite orb_true_r in Es4. rewrite (Hp3 Ep2) in Ep4. simpl in Ep4.
  apply scan_flags in H as (_ & _ & Hp & Hs & _). auto.
Qed.

(** Once a [&] is met with neither flag set the rest of the line is never
    looked at. *)
Lemma scan_background_break pre : forall l post post',
  in_pipe l = false -> has_second_command l = false ->
  "|" ∉ pre -> "&&" ∉ pre ->
  scan (pre ++ "&" :: post) l = scan (pre ++ "&" :: post') l /\
  (forall l', scan (pre ++ "&" :: post) l = OK l' ->
              background l' = true /\ in_pipe l' = false /\
              has_second_command l' = false).
Proof.
  induction pre as [|t ts IH]; intros l post post' Hp Hs Hn1 Hn2; simpl.
  - unfold loop_body. rewrite Hp, Hs. simpl. split; [reflexivity|].
    intros l' H. inversion H; subst; simpl. auto.
  - apply not_elem_of_cons in Hn1 as (Ht1 & Hn1).
    apply not_elem_of_cons in Hn2 as (Ht2 & Hn2).
    destruct (loop_body t l) as [[lb|lc]|f] eqn:E.
    + split; [reflexivity|]. intros l' H. inversion H; subst.
      apply loop_body_flags in E as (_ & _ & _ & ? & ? & ?). auto.
    + apply loop_body_flags in E as (_ & Ep & Es & _).
      apply IH; auto.
      * rewrite Ep, Hp. simpl. apply String.eqb_neq. congruence.
      * rewrite Es, Hs. simpl. apply String.eqb_neq. congruence.
    + split; [reflexivity | discriminate].
Qed.

(** ** What the argument arrays hold *)

Lemma wf_init_locals : wf_locals init_locals.
Proof. repeat split. Qed.

Lemma take_insert_snoc {A} (arr : list A) k x :
  k < length arr -> take (S k) (<[k := x]> arr) = take k arr ++ [x].
Proof.
  intros Hk. rewrite (take_S_r _ _ x) by (apply list_lookup_insert_eq; exact Hk).
  rewrite take_insert_ge by lia. reflexivity.
Qed.

Lemma argv_list_app_NULL ts rest : argv_list (map Tok ts ++ NULL :: rest) = ts.
Proof. induction ts as [|t ts IH]; simpl; [reflexivity | rewrite IH; reflexivity]. Qed.

(** The list a callee reads once the end marker is stored behind [k] tokens. *)
Lemma argv_list_terminated arr k ts :
  k < length arr -> take k arr = map Tok ts ->
  argv_list (<[k := NULL]> arr) = ts.
Proof.
  intros Hk Ht. rewrite insert_take_drop by exact Hk. rewrite Ht.
  apply argv_list_app_NULL.
Qed.

(** One iteration on a token that is not [|] or [&&] and does not leave the
    loop: it is stored in the list the mode selects. *)
Lemma loop_body_arg t l l1 :
  loop_body t l = OK (Continue l1) -> t <> "|" -> t <> "&&" -> wf_locals l ->
  wf_locals l1 /\ in_pipe l1 = in_pipe l /\
  has_second_command l1 = has_second_command l /\
  background l1 = background l /\
  if in_pipe l then
    j l < MAX_ARGS /\ j l1 = S (j l) /\
    right_args l1 = <[j l := Tok t]> (right_args l) /\
    left_args l1 = left_args l /\ second_command l1 = second_command l /\
    i l1 = i l
  else if has_second_command l then
    i l < MAX_ARGS /\ i l1 = S (i l) /\
    second_command l1 = <[i l := Tok t]> (second_command l) /\
    left_args l1 = left_args l /\ right_args l1 = right_args l /\ j l1 = j l
  else
    j l < MAX_ARGS /\ j l1 = S (j l) /\
    left_args l1 = <[j l := Tok t]> (left_args l) /\
    right_args l1 = right_args l /\ second_command l1 = second_command l /\
    i l1 = i l.
Proof.
  intros H Ht1 Ht2 (W1 & W2 & W3).
  loop_cases H; try congruence;
    apply store_OK in Hst as (Hk & ->);
    unfold wf_locals; simpl; rewrite ?length_insert; repeat split; auto.
Qed.

(** A run of such tokens fills the current list from the current counter. *)
Lemma scan_args ts : forall l l',
  scan ts l = OK l' -> "|" ∉ ts -> "&&" ∉ ts ->
  ("&" ∉ ts \/ in_pipe l || has_second_command l = true) ->
  wf_locals l ->
  wf_locals l' /\ in_pipe l' = in_pipe l /\
  has_second_command l' = has_second_command l /\
  background l' = background l /\
  if in_pipe l then
    j l' = j l + length ts /\
    take (j l') (right_args l') = take (j l) (right_args l) ++ map Tok ts /\
    left_args l' = left_args l /\ second_command l' = second_command l /\
    i l' = i l
  else if has_second_command l then
    i l' = i l + length ts /\
    take (i l') (second_command l') =
      take (i l) (second_command l) ++ map Tok ts /\
    left_args l' = left_args l /\ right_args l' = right_args l /\ j l' = j l
  else
    j l' = j l + length ts /\
    take (j l') (left_args l') = take (j l) (left_args l) ++ map Tok ts /\
    right_args l' = right_args l /\ second_command l' = second_command l /\
    i l' = i l.
Proof.
  induction ts as [|t ts IH]; intros l l' H Hn1 Hn2 Hamp W.
  - simpl in H. inversion H; subst. simpl. rewrite !app_nil_r, !Nat.add_0_r.
    repeat split; try apply W.
    destruct (in_pipe l'), (has_second_command l'); repeat split; reflexivity.
  - apply not_elem_of_cons in Hn1 as (Ht1 & Hn1).
    apply not_elem_of_cons in Hn2 as (Ht2 & Hn2).
    simpl in H. destruct (loop_body t l) as [[lb|l1]|f] eqn:E; try discriminate.
    { apply loop_body_flags in E as (-> & Ep & Es & _).
      destruct Hamp as [Hamp|Hamp]; [|rewrite Ep, Es in Hamp; discriminate].
      exfalso. apply Hamp, elem_of_cons; auto. }
    pose proof (loop_body_arg _ _ _ E (not_eq_sym Ht1) (not_eq_sym Ht2) W)
      as (W1 & Ep & Es & Eb & Hstep).
    assert (Hamp1 : "&" ∉ ts \/ in_pipe l1 || has_second_command l1 = true).
    { rewrite Ep, Es. destruct Hamp as [Hamp|Hamp]; [left|right; exact Hamp].
      intros Hin. apply Hamp, elem_of_cons; auto. }
    destruct (IH _ _ H Hn1 Hn2 Hamp1 W1) as (W' & Ep' & Es' & Eb' & Hrun).
    rewrite Ep, Es in Hrun. destruct W as (W1l & W2l & W3l).
    split; [exact W'|]. split; [congruence|]. split; [congruence|].
    split; [congruence|]. simpl length. simpl map.
    destruct (in_pipe l); [|destruct (has_second_command l)].
    + destruct Hstep as (Hk & Hj & Hr & Hl & Hsc & Hi).
      destruct Hrun as (Rj & Rt & Rl & Rsc & Ri).
      rewrite Hj, Hr in Rt. rewrite take_insert_snoc in Rt by lia.
      rewrite <- app_assoc in Rt. simpl in Rt.
      repeat split; try congruence; lia.
    + destruct Hstep as (Hk & Hi & Hsc & Hl & Hr & Hj).
      destruct Hrun as (Ri & Rt & Rl & Rr & Rj).
      rewrite Hi, Hsc in Rt. rewrite take_insert_snoc in Rt by lia.
      rewrite <- app_assoc in Rt. simpl in Rt.
      repeat split; try congruence; lia.
    + destruct Hstep as (Hk & Hj & Hl & Hr & Hsc & Hi).
      destruct Hrun as (Rj & Rt & Rr & Rsc & Ri).
      rewrite Hj, Hl in Rt. rewrite take_insert_snoc in Rt by lia.
      rewrite <- app_assoc in Rt. simpl in Rt.
      repeat split; try congruence; lia.
Qed.

(** * Properties of the orchestrator *)

Lemma after_history_frame command w :
  forks (after_history command w) = forks w /\
  os (after_history command w) = os w /\
  trace (after_history command w) = trace w.
Proof.
  unfold after_history, add_to_history.
  destruct (add_to_history_pure command (history w, history_count w)).
  simpl. auto.
Qed.

Lemma process_command_line_classified command l w :
  classify command = OK l ->
  process_command_line command w = dispatch l (after_history command w).
Proof.
  intros Hc. unfold process_command_line, after_history, bind, add_to_history.
  destruct (add_to_history_pure command (history w, history_count w)).
  simpl. unfold lift. rewrite Hc. reflexivity.
Qed.

Lemma process_command_line_fault command f w :
  classify command = UB f ->
  process_command_line command w = Halt (Hfault f) (after_history command w).
Proof.
  intros Hc. unfold process_command_line, after_history, bind, add_to_history.
  destruct (add_to_history_pure command (history w, history_count w)).
  simpl. unfold lift. rewrite Hc. reflexivity.
Qed.

(** [run_sequence_command] in the parent, foreground: one fork, one wait, and
    the value returned at lines 118-125. *)
Lemma run_sequence_command_parent args w pid rest :
  forks w = pid :: rest -> (0 < pid)%Z ->
  run_sequence_command args false w =
    Ret (if WIFEXITED (os_wait (os w) pid)
         then WEXITSTATUS (os_wait (os w) pid) else 0%Z)
        (mkWorld (history w) (history_count w) rest (os w)
                 (trace w ++ [Efork pid; Ewaitpid pid])).
Proof.
  intros Hf Hpid. unfold run_sequence_command, bind, fork. rewrite Hf.
  destruct (Z.ltb_spec pid 0); [lia|]. destruct (Z.eqb_spec pid 0); [lia|].
  simpl. unfold waitpid_status, bind, emit, ask. simpl.
  rewrite <- app_assoc. simpl.
  destruct (WIFEXITED (os_wait (os w) pid)); reflexivity.
Qed.

(** Whatever its arguments, [run_sequence_command] starts by calling [fork]. *)
Lemma run_sequence_command_forks args bg w :
  exists r tl,
    trace (world_of (run_sequence_command args bg w)) = trace w ++ Efork r :: tl.
Proof.
  unfold run_sequence_command, bind, fork.
  set (fr := match forks w with [] => _ | _ => _ end). destruct fr as [r rest].
  exists r. destruct (r <? 0)%Z.
  { simpl. rewrite <- app_assoc. eauto. }
  destruct (r =? 0)%Z.
  - unfold lift. destruct (load args 0) as [a0|f]; simpl; [|eauto].
    unfold execvp, bind, emit, ask, lift, exit, ret. simpl.
    destruct a0; simpl; rewrite <- ?app_assoc; simpl; eauto.
    destruct (os_exec (os w) s); simpl; rewrite <- ?app_assoc; simpl; eauto.
  - destruct bg; simpl.
    + rewrite <- app_assoc. eauto.
    + unfold waitpid_status, bind, emit, ask. simpl. rewrite <- app_assoc.
      destruct (WIFEXITED _); simpl; eauto.
Qed.

(** The parent's side of lines 175-207. *)
Lemma run_pipeline_parent l w r wr pid1 pid2 rest :
  os_pipe (os w) = Some (r, wr) -> forks w = pid1 :: pid2 :: rest ->
  pid1 <> 0%Z -> pid2 <> 0%Z -> background l = false ->
  run_pipeline l w =
    Ret tt (mkWorld (history w) (history_count w) rest (os w)
              (trace w ++ [Epipe (Some (r, wr)); Efork pid1; Efork pid2;
                           Eclose r; Eclose wr; Ewaitpid pid1; Ewaitpid pid2])).
Proof.
  intros Hp Hf H1 H2 Hb. unfold run_pipeline, bind, pipe, ask, emit, fork.
  simpl. rewrite Hp. simpl. rewrite Hf.
  destruct (Z.eqb_spec pid1 0); [congruence|]. simpl.
  destruct (Z.eqb_spec pid2 0); [congruence|]. simpl.
  rewrite Hb. simpl. unfold waitpid_null, bind, emit. simpl.
  rewrite <- !app_assoc. reflexivity.
Qed.

(** The first child's side: it is the process in which the first [fork]
    answers 0. *)
Lemma run_pipeline_child1 l w r wr rest a0 :
  os_pipe (os w) = Some (r, wr) -> forks w = 0%Z :: rest ->
  load (left_args l) 0 = OK a0 ->
  exists tl,
    trace (world_of (run_pipeline l w)) =
      trace w ++ [Epipe (Some (r, wr)); Efork 0; Eclose r;
                  Edup2 wr STDOUT_FILENO; Eclose wr;
                  Eexecvp a0 (left_args l)] ++ tl /\
    (tl = [] \/ tl = [Eperror "execvp"; Eexit EXIT_FAILURE]).
Proof.
  intros Hp Hf Hl. unfold run_pipeline, bind, pipe, ask, emit, fork.
  simpl. rewrite Hp. simpl. rewrite Hf. simpl. unfold lift. rewrite Hl.
  unfold execvp, bind, emit, ask, lift, perror, exit, emit. simpl.
  destruct a0 as [| |f]; simpl.
  - exists []. rewrite <- !app_assoc. simpl. auto.
  - exists []. rewrite <- !app_assoc. simpl. auto.
  - destruct (os_exec (os w) f); simpl.
    + exists []. rewrite <- !app_assoc. simpl. auto.
    + eexists. rewrite <- !app_assoc. simpl. split; [reflexivity|]. auto.
Qed.

(** The second child's side: the first [fork] answered a pid, the second 0. *)
Lemma run_pipeline_child2 l w r wr pid1 rest b0 :
  os_pipe (os w) = Some (r, wr) -> forks w = pid1 :: 0%Z :: rest ->
  pid1 <> 0%Z -> load (right_args l) 0 = OK b0 ->
  exists tl,
    trace (world_of (run_pipeline l w)) =
      trace w ++ [Epipe (Some (r, wr)); Efork pid1; Efork 0; Eclose wr;
                  Edup2 r STDIN_FILENO; Eclose r;
                  Eexecvp b0 (right_args l)] ++ tl /\
    (tl = [] \/ tl = [Eperror "execvp"; Eexit EXIT_FAILURE]).
Proof.
  intros Hp Hf H1 Hl. unfold run_pipeline, bind, pipe, ask, emit, fork.
  simpl. rewrite Hp. simpl. rewrite Hf.
  destruct (Z.eqb_spec pid1 0); [congruence|]. simpl. unfold lift. rewrite Hl.
  unfold execvp, bind, emit, ask, lift, perror, exit, emit. simpl.
  destruct b0 as [| |f]; simpl.
  - exists []. rewrite <- !app_assoc. simpl. auto.
  - exists []. rewrite <- !app_assoc. simpl. auto.
  - destruct (os_exec (os w) f); simpl.
    + exists []. rewrite <- !app_assoc. simpl. auto.
    + eexists. rewrite <- !app_assoc. simpl. split; [reflexivity|]. auto.
Qed.

(** * Properties of the history buffer *)

Lemma substring_all n : forall s, String.length s <= n -> substring 0 n s = s.
Proof.
  induction n as [|n IH]; intros [|c s] Hlen; simpl in *; try reflexivity;
    try lia.
  rewrite IH by lia. reflexivity.
Qed.

Lemma strncpy_terminated_short command :
  String.length command < MAX_COMMAND_LENGTH ->
  strncpy_terminated command = command.
Proof.
  intros H. apply substring_all. unfold MAX_COMMAND_LENGTH in *. lia.
Qed.

Lemma lastn_short {A} n (l : list A) : length l <= n -> lastn n l = l.
Proof. intros H. unfold lastn. replace (length l - n) with 0 by lia. reflexivity. Qed.

Lemma lastn_app_lastn {A} n (a b : list A) :
  lastn n (lastn n a ++ b) = lastn n (a ++ b).
Proof.
  unfold lastn. rewrite !length_app, length_drop.
  destruct (Nat.le_gt_cases (length a) n) as [Hle|Hgt].
  - replace (length a - n) with 0 by lia. rewrite drop_0, Nat.sub_0_r.
    reflexivity.
  - replace (length a - (length a - n) + length b - n) with (length b) by lia.
    replace (length a + length b - n) with ((length a - n) + length b) by lia.
    rewrite <- drop_drop. rewrite (drop_app_le a b) by lia. reflexivity.
Qed.

(** Lines 18-29 on the entries: append, and drop the oldest when full. *)
Lemma add_to_history_entries command hc :
  wf_history hc ->
  wf_history (add_to_history_pure command hc) /\
  entries (add_to_history_pure command hc) =
    lastn HISTORY_SIZE (entries hc ++ [strncpy_terminated command]).
Proof.
  destruct hc as [h c]. unfold wf_history, entries. simpl. intros (Hlen & Hc).
  destruct (Nat.eqb_spec c HISTORY_SIZE) as [->|Hne]; simpl.
  - do 11 (destruct h as [|? h]; try discriminate).
    split; [split; [reflexivity | unfold HISTORY_SIZE; lia] | reflexivity].
  - rewrite length_insert. split; [split; [exact Hlen | lia]|].
    rewrite take_insert_snoc by lia.
    rewrite lastn_short; [reflexivity|].
    rewrite length_app, length_take. simpl. lia.
Qed.

Lemma add_all_entries commands : forall hc,
  wf_history hc ->
  wf_history (add_all commands hc) /\
  entries (add_all commands hc) =
    lastn HISTORY_SIZE (entries hc ++ map strncpy_terminated commands).
Proof.
  induction commands as [|c cs IH]; intros hc W.
  - simpl. split; [exact W|]. rewrite app_nil_r, lastn_short; [reflexivity|].
    destruct hc as [h n], W as (Hl & Hn). unfold entries. simpl in *.
    rewrite length_take. lia.
  - change (add_all (c :: cs) hc) with (add_all cs (add_to_history_pure c hc)).
    destruct (add_to_history_entries c hc W) as (W1 & E1).
    destruct (IH _ W1) as (W2 & E2). split; [exact W2|].
    rewrite E2, E1, lastn_app_lastn, <- app_assoc. reflexivity.
Qed.

Lemma listing_from h a : forall c,
  a + c <= length h ->
  map (fun k => Eprintf "%d: %s\n"
                        [PInt (Z.of_nat (k + 1)); PStr (default "" (h !! k))])
      (seq a c) = numbered (a + 1) (take c (drop a h)).
Proof.
  intros c. revert a. induction c as [|c IH]; intros a Hlen; [reflexivity|].
  simpl seq. simpl map. rewrite (IH (S a)) by lia.
  destruct (drop a h) as [|x xs] eqn:Ed.
  { apply (f_equal length) in Ed. rewrite length_drop in Ed. simpl in Ed. lia. }
  assert (Hx : h !! a = Some x).
  { rewrite <- (Nat.add_0_r a), <- lookup_drop, Ed. reflexivity. }
  assert (Hxs : drop (S a) h = xs).
  { replace (S a) with (a + 1) by lia. rewrite <- drop_drop, Ed. reflexivity. }
  rewrite Hx, Hxs. simpl. replace (S a + 1) with (S (a + 1)) by lia.
  reflexivity.
Qed.

(** The [history] builtin prints the entries numbered from 1. *)
Lemma history_listing_numbered h c :
  wf_history (h, c) -> history_listing h c = numbered 1 (entries (h, c)).
Proof.
  intros (Hl & Hc). simpl in *. unfold history_listing, entries. simpl.
  destruct (Nat.ltb_spec HISTORY_SIZE c); [lia|].
  rewrite listing_from by lia. rewrite drop_0. reflexivity.
Qed.

(** From an empty history: the listing shows the last [HISTORY_SIZE] lines. *)
Lemma history_after_lines lines :
  Forall (fun s => String.length s < MAX_COMMAND_LENGTH) lines ->
  (add_all lines (init_history, 0)).2 = min (length lines) HISTORY_SIZE /\
  history_listing (add_all lines (init_history, 0)).1
                  (add_all lines (init_history, 0)).2
  = numbered 1 (lastn HISTORY_SIZE lines).
Proof.
  intros Hshort.
  assert (W0 : wf_history (init_history, 0)).
  { split; simpl; [reflexivity | lia]. }
  destruct (add_all_entries lines _ W0) as (W & He).
  assert (Hmap : map strncpy_terminated lines = lines).
  { clear - Hshort. induction Hshort as [|s ss Hs _ IH]; simpl; [reflexivity|].
    rewrite strncpy_terminated_short by exact Hs. rewrite IH. reflexivity. }
  change (entries (init_history, 0)) with (@nil string) in He.
  rewrite app_nil_l, Hmap in He.
  destruct (add_all lines (init_history, 0)) as [h c] eqn:E. simpl.
  split.
  - apply (f_equal length) in He. unfold entries, lastn in He. simpl in He.
    destruct W as (Wl & Wc). simpl in Wl, Wc.
    rewrite length_take, length_drop in He. lia.
  - rewrite history_listing_numbered by exact W. rewrite He. reflexivity.
Qed.

(** ** Only [add_to_history] touches the history *)

Lemma keeps_ret {A} (a : A) : keeps_history (ret a).
Proof. intros w. split; reflexivity. Qed.

Lemma keeps_emit e : keeps_history (emit e).
Proof. intros w. split; reflexivity. Qed.

Lemma keeps_ask {A} (f : oracle -> A) : keeps_history (ask f).
Proof. intros w. split; reflexivity. Qed.

Lemma keeps_lift {A} (r : res A) : keeps_history (lift r).
Proof. intros w. destruct r; split; reflexivity. Qed.

Lemma keeps_exit {A} code : keeps_history (@exit A code).
Proof. intros w. split; reflexivity. Qed.

Lemma keeps_fork : keeps_history fork.
Proof. intros w. unfold fork. destruct (forks w); split; reflexivity. Qed.

Lemma keeps_bind {A B} (m : M A) (k : A -> M B) :
  keeps_history m -> (forall a, keeps_history (k a)) ->
  keeps_history (bind m k).
Proof.
  intros Hm Hk w. unfold bind. specialize (Hm w).
  destruct (m w) as [a w1|h w1]; simpl in *; [|exact Hm].
  destruct Hm as (M1 & M2). destruct (Hk a w1) as (H1 & H2).
  split; congruence.
Qed.

Create HintDb frame.
#[local] Hint Resolve keeps_ret keeps_emit keeps_ask keeps_lift keeps_exit
  keeps_fork : frame.

(** Walk through a monadic body: binds, conditionals and matches. *)
Ltac keeps :=
  repeat first
    [ solve [eauto with frame]
    | apply keeps_bind; [|intros ?]
    | match goal with
      | |- keeps_history (if ?b then _ else _) => destruct b
      | |- keeps_history (match ?x with _ => _ end) => destruct x
      end ].

Lemma keeps_chdir_to path allocated : keeps_history (chdir_to path allocated).
Proof. unfold chdir_to, perror. keeps. Qed.
#[local] Hint Resolve keeps_chdir_to : frame.

Lemma keeps_change_directory args : keeps_history (change_directory args).
Proof. unfold change_directory, perror. keeps. Qed.
#[local] Hint Resolve keeps_change_directory : frame.

Lemma keeps_execute_builtin_command args :
  keeps_history (execute_builtin_command args).
Proof.
  unfold execute_builtin_command, printf. keeps.
  intros w. split; reflexivity.
Qed.
#[local] Hint Resolve keeps_execute_builtin_command : frame.

Lemma keeps_execvp file args : keeps_history (execvp file args).
Proof.
  unfold execvp. keeps. intros w. split; reflexivity.
Qed.
#[local] Hint Resolve keeps_execvp : frame.

Lemma keeps_run_sequence_command args bg :
  keeps_history (run_sequence_command args bg).
Proof.
  unfold run_sequence_command, perror, printf, waitpid_status. keeps.
Qed.
#[local] Hint Resolve keeps_run_sequence_command : frame.

Lemma keeps_run_pipeline l : keeps_history (run_pipeline l).
Proof.
  unfold run_pipeline, pipe, perror, printf, waitpid_null. keeps.
Qed.
#[local] Hint Resolve keeps_run_pipeline : frame.

Lemma keeps_dispatch l : keeps_history (dispatch l).
Proof. unfold dispatch. keeps. Qed.

(** Line 137 is the only change [process_command_line] makes to the history,
    however the line is then executed. *)
Lemma process_command_line_history command w :
  (history (world_of (process_command_line command w)),
   history_count (world_of (process_command_line command w)))
  = add_to_history_pure command (history w, history_count w).
Proof.
  destruct (classify command) as [l|f] eqn:Hc.
  - rewrite (process_command_line_classified _ _ _ Hc).
    destruct (keeps_dispatch l (after_history command w)) as (-> & ->).
    unfold after_history, add_to_history.
    destruct (add_to_history_pure command (history w, history_count w)).
    reflexivity.
  - rewrite (process_command_line_fault _ _ _ Hc). cbn [world_of].
    unfold after_history, add_to_history.
    destruct (add_to_history_pure command (history w, history_count w)).
    reflexivity.
Qed.

(** * The first cell of each list the orchestrator reads is initialised *)

Lemma initialised_insert arr k v :
  k < length arr -> v <> Undef -> k = 0 \/ initialised arr ->
  initialised (<[k := v]> arr).
Proof.
  intros Hk Hv Hor. destruct (Nat.eq_dec k 0) as [->|Hne].
  - exists v. rewrite list_lookup_insert_eq by exact Hk. auto.
  - destruct Hor as [?|(c & Hc & Hu)]; [contradiction|].
    exists c. rewrite list_lookup_insert_ne by exact Hne. auto.
Qed.

Lemma initialised_load arr : initialised arr -> exists c, load arr 0 = OK c.
Proof.
  intros (c & Hc & Hu). unfold load. rewrite Hc.
  destruct c; [contradiction | eauto | eauto].
Qed.

Lemma heads_inv_init : heads_inv init_locals.
Proof.
  split; [apply wf_init_locals|]. split; [right; auto|]. discriminate.
Qed.

Lemma loop_body_heads_inv t l c :
  loop_body t l = OK c -> heads_inv l ->
  heads_inv match c with Break l' => l' | Continue l' => l' end.
Proof.
  intros H ((W1 & W2 & W3) & HL & HR).
  loop_cases H; try (apply store_OK in Hst as (Hk & ->));
    (split; [unfold wf_locals; simpl; rewrite ?length_insert; auto|]);
    simpl; split; try discriminate; auto;
    try (left; apply initialised_insert; [lia | discriminate | tauto]);
    try (intros _; right; apply initialised_insert;
         [lia | discriminate | destruct (HR eq_refl); auto]);
    try (destruct HL as [?|(? & ? & ?)]; [left; assumption | congruence]).
Qed.

Lemma scan_heads_inv tokens : forall l l',
  scan tokens l = OK l' -> heads_inv l -> heads_inv l'.
Proof.
  induction tokens as [|t ts IH]; intros l l' H Hinv; simpl in H.
  - inversion H; subst. exact Hinv.
  - destruct (loop_body t l) as [[lb|lc]|f] eqn:E; try discriminate.
    + inversion H; subst. exact (loop_body_heads_inv _ _ _ E Hinv).
    + exact (IH _ _ H (loop_body_heads_inv _ _ _ E Hinv)).
Qed.

(** After classification [left_args[0]] can be read, and so can
    [right_args[0]] on a pipeline line. *)
Lemma classify_tokens_heads tokens p :
  classify_tokens tokens = OK p ->
  (exists a0, load (left_args p) 0 = OK a0) /\
  (in_pipe p = true -> exists b0, load (right_args p) 0 = OK b0).
Proof.
  intros H. apply classify_tokens_inv in H as (l & Hs & Ht).
  pose proof (scan_heads_inv _ _ _ Hs heads_inv_init)
    as ((W1 & W2 & W3) & HL & HR).
  unfold terminate_lists in Ht.
  destruct (store Aleft_args _ _ _) as [la|] eqn:E1; simpl in Ht;
    try discriminate.
  destruct (store Aright_args _ _ _) as [ra|] eqn:E2; simpl in Ht;
    try discriminate.
  destruct (store Asecond_command _ _ _) as [sc|] eqn:E3; simpl in Ht;
    try discriminate.
  inversion Ht; subst; simpl. clear Ht.
  apply store_OK in E1 as (Hk1 & ->). apply store_OK in E2 as (Hk2 & ->).
  split.
  - apply initialised_load, initialised_insert; [lia | discriminate|].
    destruct HL as [?|(? & _)]; auto.
  - intros Hp. apply initialised_load, initialised_insert;
      [lia | discriminate|]. destruct (HR Hp); auto.
Qed.

(** * Lists after an operator *)

Lemma terminate_lists_arrays l p :
  terminate_lists l = OK p ->
  j l < MAX_ARGS /\ i l < MAX_ARGS /\
  left_args p = <[j l := NULL]> (left_args l) /\
  right_args p = <[j l := NULL]> (right_args l) /\
  second_command p = <[i l := NULL]> (second_command l).
Proof.
  unfold terminate_lists. intros H.
  destruct (store Aleft_args _ _ _) eqn:E1; simpl in H; try discriminate.
  destruct (store Aright_args _ _ _) eqn:E2; simpl in H; try discriminate.
  destruct (store Asecond_command _ _ _) eqn:E3; simpl in H; try discriminate.
  inversion H; subst; simpl.
  apply store_OK in E1 as (? & ->). apply store_OK in E2 as (? & ->).
  apply store_OK in E3 as (? & ->). auto.
Qed.

(** Lines 145-148 and 149-152: what an operator token does to the counters,
    whatever came before it. *)
Lemma loop_body_operator t l l1 :
  loop_body t l = OK (Continue l1) -> t = "|" \/ t = "&&" ->
  right_args l1 = right_args l /\ second_command l1 = second_command l /\
  if String.eqb t "|" then j l1 = 0 /\ i l1 = i l
  else i l1 = 0 /\ j l1 = j l.
Proof.
  intros H [-> | ->]; loop_cases H; try congruence; auto.
Qed.


Lemma loop_body_no_operator_cells t l c :
  loop_body t l = OK c -> no_operator_cells l ->
  no_operator_cells match c with Break l' => l' | Continue l' => l' end.
Proof.
  intros H (F1 & F2 & F3).
  loop_cases H; try (apply store_OK in Hst as (_ & ->));
    repeat split; simpl; auto;
    apply Forall_insert; auto; split; congruence.
Qed.

Lemma classify_tokens_no_operator_cells tokens p :
  classify_tokens tokens = OK p -> no_operator_cells p.
Proof.
  intros H. apply classify_tokens_inv in H as (l & Hs & Ht).
  assert (Hl : no_operator_cells l).
  { assert (H0 : no_operator_cells init_locals).
    { repeat split; apply Forall_replicate; split; discriminate. }
    revert Hs H0. generalize init_locals. clear.
    induction tokens as [|t ts IH]; intros l0 Hs H0; simpl in Hs.
    - inversion Hs; subst. exact H0.
    - destruct (loop_body t l0) as [[lb|lc]|f] eqn:E; try discriminate.
      + inversion Hs; subst. exact (loop_body_no_operator_cells _ _ _ E H0).
      + exact (IH _ Hs (loop_body_no_operator_cells _ _ _ E H0)). }
  destruct Hl as (F1 & F2 & F3).
  destruct (terminate_lists_arrays _ _ Ht) as (_ & _ & E1 & E2 & E3).
  unfold no_operator_cells. rewrite E1, E2, E3.
  repeat split; apply Forall_insert; auto; split; discriminate.
Qed.

(** A run of ordinary tokens within the capacity is scanned without fault. *)
Lemma scan_plain_defined ts : forall l,
  in_pipe l = false -> has_second_command l = false ->
  "&" ∉ ts -> "|" ∉ ts -> "&&" ∉ ts ->
  j l + length ts <= MAX_ARGS ->
  exists l', scan ts l = OK l'.
Proof.
  induction ts as [|t ts IH]; intros l Hp Hs H1 H2 H3 Hlen; simpl; [eauto|].
  apply not_elem_of_cons in H1 as (T1 & H1).
  apply not_elem_of_cons in H2 as (T2 & H2).
  apply not_elem_of_cons in H3 as (T3 & H3).
  unfold loop_body. rewrite Hp, Hs.
  destruct (String.eqb_spec t "&"); [congruence|].
  destruct (String.eqb_spec t "|"); [congruence|].
  destruct (String.eqb_spec t "&&"); [congruence|]. simpl in *.
  rewrite store_in_bounds by lia. simpl. apply IH; simpl; auto. lia.
Qed.

(** With [MAX_ARGS] or more ordinary words and no operator, the scan or the
    end marker of line 164 stores at [left_args[MAX_ARGS]]. *)
Lemma scan_plain_overflow ts : forall l,
  in_pipe l = false -> has_second_command l = false ->
  "&" ∉ ts -> "|" ∉ ts -> "&&" ∉ ts ->
  j l <= MAX_ARGS -> MAX_ARGS < j l + length ts ->
  scan ts l = UB (OutOfBounds Aleft_args MAX_ARGS).
Proof.
  induction ts as [|t ts IH]; intros l Hp Hs H1 H2 H3 Hj Hlen; simpl in *;
    [lia|].
  apply not_elem_of_cons in H1 as (T1 & H1).
  apply not_elem_of_cons in H2 as (T2 & H2).
  apply not_elem_of_cons in H3 as (T3 & H3).
  unfold loop_body. rewrite Hp, Hs.
  destruct (String.eqb_spec t "&"); [congruence|].
  destruct (String.eqb_spec t "|"); [congruence|].
  destruct (String.eqb_spec t "&&"); [congruence|]. simpl.
  destruct (Nat.eq_dec (j l) MAX_ARGS) as [->|Hne].
  - reflexivity.
  - rewrite store_in_bounds by lia. simpl. apply IH; simpl; auto; lia.
Qed.

Lemma classify_tokens_overflow ts :
  "&" ∉ ts -> "|" ∉ ts -> "&&" ∉ ts -> MAX_ARGS <= length ts ->
  classify_tokens ts = UB (OutOfBounds Aleft_args MAX_ARGS).
Proof.
  intros H1 H2 H3 Hlen. unfold classify_tokens.
  destruct (Nat.eq_dec (length ts) MAX_ARGS) as [Heq|Hne].
  - destruct (scan_plain_defined ts init_locals eq_refl eq_refl H1 H2 H3)
      as (l & Hs); [simpl; lia|].
    destruct (scan_args _ _ _ Hs H2 H3 (or_introl H1) wf_init_locals)
      as (_ & _ & _ & _ & Hrun).
    simpl in Hrun. destruct Hrun as (Hj & _).
    rewrite Hs. simpl. unfold terminate_lists. rewrite Hj, Heq. reflexivity.
  - rewrite scan_plain_overflow; auto; simpl; lia.
Qed.

(** Without a pipeline an empty primary command is handed to
    [run_sequence_command], which forks. *)
Lemma empty_primary_forks command l w :
  classify command = OK l -> load (left_args l) 0 = OK NULL ->
  in_pipe l = false ->
  exists r tl,
    trace (world_of (process_command_line command w))
    = trace w ++ Efork r :: tl.
Proof.
  intros Hc Hl Hp.
  rewrite (process_command_line_classified _ _ _ Hc).
  destruct (after_history_frame command w) as (_ & _ & <-).
  generalize (after_history command w). intros wh.
  unfold dispatch. unfold bind at 1. unfold lift. rewrite Hl. simpl.
  rewrite Hp.
  destruct (run_sequence_command_forks (left_args l) (background l) wh)
    as (r & tl & Htr).
  exists r. destruct (has_second_command l); unfold bind at 1;
    destruct (run_sequence_command (left_args l) (background l) wh)
      as [z w1|h w1]; simpl in Htr; simpl; eauto.
  destruct (z =? 0)%Z; simpl; [|eauto].
  destruct (run_sequence_command_forks (second_command l) (background l) w1)
    as (r2 & tl2 & Htr2).
  unfold bind.
  destruct (run_sequence_command (second_command l) (background l) w1);
    simpl in *; rewrite Htr2, Htr, <- app_assoc; simpl; eauto.
Qed.

(** The line [history] is recorded and then lists the buffer, itself
    included. *)
Lemma history_builtin_prints w :
  process_command_line "history" w
  = Ret tt (mkWorld (history (after_history "history" w))
                    (history_count (after_history "history" w))
                    (forks w) (os w)
                    (trace w ++
                     history_listing
                       (history (after_history "history" w))
                       (history_count (after_history "history" w)))).
Proof.
  assert (Hc : exists l, classify "history" = OK l /\
                         load (left_args l) 0 = OK (Tok "history")).
  { eexists. split; vm_compute; reflexivity. }
  destruct Hc as (l & Hc & Hl).
  rewrite (process_command_line_classified _ _ _ Hc).
  destruct (after_history_frame "history" w) as (Ff & Fo & Ft).
  unfold dispatch, bind, lift. rewrite Hl. simpl.
  unfold execute_builtin_command, bind, lift. rewrite Hl. simpl.
  rewrite Ff, Fo, Ft. reflexivity.
Qed.

(** A foreground sequence line: what follows the wait for the primary child
    depends on its status as lines 118-125 and 211 decide. *)
Lemma sequence_line_dispatch command l w a0 pid rest :
  classify command = OK l ->
  has_second_command l = true -> in_pipe l = false ->
  load (left_args l) 0 = OK a0 -> is_builtin a0 = false ->
  forks w = pid :: rest -> (0 < pid)%Z ->
  let w1 := mkWorld (history (after_history command w))
                    (history_count (after_history command w))
                    rest (os w) (trace w ++ [Efork pid; Ewaitpid pid]) in
  process_command_line command w
  = match os_wait (os w) pid with
    | Exited code =>
        if (code =? 0)%Z
        then bind (run_sequence_command (second_command l) false)
                  (fun _ => ret tt) w1
        else Ret tt w1
    | Signaled _ =>
        bind (run_sequence_command (second_command l) false)
             (fun _ => ret tt) w1
    end.
Proof.
  intros Hc Hs Hp Hl Hnb Hf Hpid w1.
  destruct (after_history_frame command w) as (Ff & Fo & Ft).
  assert (Hbg : background l = false).
  { unfold classify in Hc.
    destruct (classify_tokens_inv _ _ Hc) as (l0 & Hsc & Ht).
    destruct (terminate_lists_flags _ _ Ht) as (_ & Fs & Fb & _).
    destruct (scan_flags _ _ _ Hsc) as (_ & _ & _ & _ & Hb).
    destruct (background l) eqn:E; [|reflexivity].
    destruct (Hb eq_refl) as (_ & Hq); congruence. }
  rewrite (process_command_line_classified _ _ _ Hc).
  unfold dispatch at 1. unfold bind at 1. unfold lift. rewrite Hl.
  rewrite Hnb, Hp, Hs, Hbg. unfold bind at 1.
  rewrite (run_sequence_command_parent _ _ pid rest) by (rewrite ?Ff; auto).
  rewrite Fo, Ft. fold w1.
  destruct (os_wait (os w) pid) as [code|sig]; simpl; [|reflexivity].
  destruct (code =? 0)%Z; reflexivity.
Qed.

(** * Lists with their end marker *)

Lemma c_argv_app_NULL ts rest : c_argv (map Tok ts ++ NULL :: rest) = Some ts.
Proof.
  induction ts as [|t ts IH]; simpl; [reflexivity | rewrite IH; reflexivity].
Qed.

Lemma c_argv_terminated arr k ts :
  k < length arr -> take k arr = map Tok ts ->
  c_argv (<[k := NULL]> arr) = Some ts.
Proof.
  intros Hk Ht. rewrite insert_take_drop by exact Hk. rewrite Ht.
  apply c_argv_app_NULL.
Qed.

Lemma c_argv_argv_list arr : forall ts,
  c_argv arr = Some ts -> argv_list arr = ts.
Proof.
  induction arr as [|c arr IH]; intros ts H; simpl in H; [discriminate|].
  destruct c as [| |s]; try discriminate.
  - inversion H. reflexivity.
  - destruct (c_argv arr) as [ts'|]; [|discriminate].
    inversion H; subst. simpl. rewrite (IH ts' eq_refl). reflexivity.
Qed.

(** The cell behind the last token is the end marker. *)
Lemma c_argv_end arr : forall ts,
  c_argv arr = Some ts -> arr !! length ts = Some NULL.
Proof.
  induction arr as [|c arr IH]; intros ts H; simpl in H; [discriminate|].
  destruct c as [| |s]; try discriminate.
  - inversion H. reflexivity.
  - destruct (c_argv arr) as [ts'|]; [|discriminate].
    inversion H; subst. simpl. apply IH. reflexivity.
Qed.

Lemma scanned_through_no_amp ts : "&" ∉ ts -> scanned_through ts = true.
Proof.
  induction ts as [|t ts IH]; intros Hn; simpl; [reflexivity|].
  apply not_elem_of_cons in Hn as (Ht & Hn).
  destruct (String.eqb_spec t "&"); [congruence|].
  destruct (String.eqb t "|" || String.eqb t "&&"); auto.
Qed.

(** Tokens that are scanned through can be scanned apart from what follows
    them, whatever the state the scan starts in. *)
Lemma scan_app_through a : forall b l,
  scanned_through a = true ->
  scan (a ++ b) l = res_bind (scan a l) (scan b).
Proof.
  induction a as [|t ts IH]; intros b l Hthr; [reflexivity|].
  simpl in Hthr. destruct (String.eqb_spec t "&") as [|Hamp]; [discriminate|].
  simpl. destruct (loop_body t l) as [[lb|lc]|f] eqn:E; simpl; try reflexivity.
  - apply loop_body_flags in E as (-> & _). congruence.
  - destruct (String.eqb t "|" || String.eqb t "&&") eqn:Hop.
    + apply scan_app. left.
      apply loop_body_flags in E as (_ & Ep & Es & _). rewrite Ep, Es.
      apply orb_true_iff in Hop as [-> | ->]; rewrite ?orb_true_r; reflexivity.
    + apply IH. exact Hthr.
Qed.

(** The pipeline-secondary list, end marker included, is what follows the
    last [|] the scan reaches. *)
Lemma classify_after_pipe_through pre post p :
  scanned_through pre = true -> "|" ∉ post -> "&&" ∉ post ->
  classify_tokens (pre ++ "|" :: post) = OK p ->
  in_pipe p = true /\ background p = false /\ j p = length post /\
  c_argv (right_args p) = Some post.
Proof.
  intros Hpre Hp1 Hp2 H.
  apply classify_tokens_inv in H as (l & Hs & Ht).
  pose proof (scan_flags _ _ _ Hs) as (_ & _ & _ & _ & Hbg).
  rewrite scan_app_through in Hs by exact Hpre.
  apply res_bind_OK in Hs as (l1 & Hs1 & Hs).
  apply scan_cons_continue in Hs as (l2 & E2 & Hs); [|discriminate].
  pose proof (scan_heads_inv _ _ _ Hs1 heads_inv_init) as Hinv1.
  pose proof (loop_body_heads_inv _ _ _ E2 Hinv1) as (W2 & _).
  pose proof (loop_body_flags _ _ _ E2) as (_ & Ep2 & _).
  rewrite orb_true_r in Ep2.
  apply loop_body_operator in E2 as (_ & _ & Hj2); [|auto]. simpl in Hj2.
  destruct Hj2 as (Hj2 & _).
  destruct (scan_args _ _ _ Hs Hp1 Hp2) as (W & Ep & _ & _ & Hrun); auto.
  { right. rewrite Ep2. reflexivity. }
  rewrite Ep2 in Hrun, Ep. destruct Hrun as (Hj & Htake & _).
  rewrite Hj2 in Hj, Htake. simpl in Hj, Htake.
  destruct (terminate_lists_flags _ _ Ht) as (Fp & _ & Fb & _ & Fj).
  destruct (terminate_lists_arrays _ _ Ht) as (Hk & _ & _ & Hr & _).
  destruct W as (_ & Wr & _).
  split; [congruence|]. split.
  { rewrite Fb. destruct (background l) eqn:Hb; [|reflexivity].
    destruct (Hbg eq_refl eq_refl) as (Hq & _). congruence. }
  split; [congruence|].
  rewrite Hr. apply c_argv_terminated; [lia | exact Htake].
Qed.

(** Outside pipeline mode the sequence-secondary list, end marker included,
    is what follows the last [&&] the scan reaches. *)
Lemma classify_after_sequence_through pre post p :
  scanned_through pre = true -> "|" ∉ pre -> "|" ∉ post -> "&&" ∉ post ->
  classify_tokens (pre ++ "&&" :: post) = OK p ->
  has_second_command p = true /\ in_pipe p = false /\ background p = false /\
  i p = length post /\ c_argv (second_command p) = Some post.
Proof.
  intros Hpre Hpre1 Hp1 Hp2 H.
  apply classify_tokens_inv in H as (l & Hs & Ht).
  pose proof (scan_flags _ _ _ Hs) as (_ & _ & _ & _ & Hbg).
  rewrite scan_app_through in Hs by exact Hpre.
  apply res_bind_OK in Hs as (l1 & Hs1 & Hs).
  apply scan_cons_continue in Hs as (l2 & E2 & Hs); [|discriminate].
  pose proof (scan_heads_inv _ _ _ Hs1 heads_inv_init) as Hinv1.
  pose proof (loop_body_heads_inv _ _ _ E2 Hinv1) as (W2 & _).
  pose proof (loop_body_flags _ _ _ E2) as (_ & Ep2 & Es2 & _).
  rewrite orb_true_r in Es2. simpl in Ep2. rewrite orb_false_r in Ep2.
  assert (Hp0 : in_pipe l1 = false).
  { destruct (in_pipe l1) eqn:Hq; [|reflexivity].
    destruct (scan_flags _ _ _ Hs1) as (Hin & _).
    destruct (Hin Hq) as [?|?]; [discriminate | contradiction]. }
  rewrite Hp0 in Ep2.
  apply loop_body_operator in E2 as (_ & _ & Hi2); [|auto]. simpl in Hi2.
  destruct Hi2 as (Hi2 & _).
  destruct (scan_args _ _ _ Hs Hp1 Hp2) as (W & Ep & Es & _ & Hrun); auto.
  { right. rewrite Es2. apply orb_true_r. }
  rewrite Ep2, Es2 in Hrun. rewrite Ep2 in Ep. rewrite Es2 in Es.
  destruct Hrun as (Hi & Htake & _).
  rewrite Hi2 in Hi, Htake. simpl in Hi, Htake.
  destruct (terminate_lists_flags _ _ Ht) as (Fp & Fs & Fb & Fi & _).
  destruct (terminate_lists_arrays _ _ Ht) as (_ & Hk & _ & _ & Hr).
  destruct W as (_ & _ & Ws).
  split; [congruence|]. split; [congruence|]. split.
  { rewrite Fb. destruct (background l) eqn:Hb; [|reflexivity].
    destruct (Hbg eq_refl eq_refl) as (_ & Hq). congruence. }
  split; [congruence|].
  rewrite Hr. apply c_argv_terminated; [lia | exact Htake].
Qed.

(** A line of ordinary words fills the primary list, end marker included,
    and sets no flag. *)
Lemma classify_plain_argv ts :
  "&" ∉ ts -> "|" ∉ ts -> "&&" ∉ ts -> length ts < MAX_ARGS ->
  exists p, classify_tokens ts = OK p /\
            in_pipe p = false /\ has_second_command p = false /\
            background p = false /\ c_argv (left_args p) = Some ts.
Proof.
  intros H1 H2 H3 Hlen.
  destruct (scan_plain_defined ts init_locals eq_refl eq_refl H1 H2 H3)
    as (l & Hs); [simpl; lia|].
  destruct (scan_args _ _ _ Hs H2 H3 (or_introl H1) wf_init_locals)
    as ((Wl & _) & Ep & Es & Eb & Hrun).
  simpl in Ep, Es, Eb, Hrun. destruct Hrun as (Hj & Htake & _ & _ & Hi).
  unfold classify_tokens. rewrite Hs. simpl. unfold terminate_lists.
  rewrite !store_in_bounds by lia. simpl. eexists. split; [reflexivity|].
  simpl. repeat split; auto.
  apply c_argv_terminated; [lia | exact Htake].
Qed.

(** * The claims *)

(** C1, counterexample: the line [A | B && C] is classified with both the
    pipeline flag and the sequence flag set. *)
Lemma C1_counterexample :
  exists p, classify "A | B && C" = OK p /\
            in_pipe p = true /\ has_second_command p = true.
Proof. eexists. split; [vm_compute; reflexivity|]. split; reflexivity. Qed.

(** C1, as amended: the two flags are set independently of each other.  The
    pipeline flag is set only if the line has a [|] token and the sequence
    flag only if it has a [&&] token, so a line lacking either has at most
    one of them set; a line with a [|] token that no [&] precedes and a
    later [&&] token has both set.  When the pipeline flag is set and the
    primary command [left_args[0]] is not a builtin name,
    [process_command_line] takes the pipeline branch only (a builtin
    primary is run by lines 169-172 before the flags are looked at). *)
Theorem C1_flags_set_independently (command : string) (p : locals) :
  classify command = OK p ->
  (in_pipe p = true -> "|" ∈ strtok command) /\
  (has_second_command p = true -> "&&" ∈ strtok command) /\
  (forall pre mid post,
      strtok command = pre ++ "|" :: mid ++ "&&" :: post -> "&" ∉ pre ->
      in_pipe p = true /\ has_second_command p = true) /\
  (in_pipe p = true ->
   forall a0 w, load (left_args p) 0 = OK a0 -> is_builtin a0 = false ->
                dispatch p w = run_pipeline p w).
Proof.
  unfold classify. intros H.
  destruct (classify_tokens_inv _ _ H) as (l & Hs & Ht).
  destruct (terminate_lists_flags _ _ Ht) as (Fp & Fs & _).
  destruct (scan_flags _ _ _ Hs) as (Hp & Hq & _).
  split; [|split; [|split]].
  - intros Hin. rewrite Fp in Hin. destruct (Hp Hin); [discriminate | auto].
  - intros Hin. rewrite Fs in Hin. destruct (Hq Hin); [discriminate | auto].
  - intros pre mid post Heq Hpre. rewrite Heq in Hs.
    rewrite Fp, Fs. exact (scan_pipe_then_sequence _ _ _ _ _ Hpre Hs).
  - intros Hin a0 w Hl Hb. unfold dispatch, bind, lift.
    rewrite Hl, Hb, Hin. reflexivity.
Qed.

Lemma C1_flags_set_independently_witness :
  exists p, classify "ls -l | wc -l" = OK p /\
            (in_pipe p = true -> "|" ∈ strtok "ls -l | wc -l").
Proof.
  eexists. split; [vm_compute; reflexivity|].
  refine (proj1 (C1_flags_set_independently "ls -l | wc -l" _ _)).
  vm_compute; reflexivity.
Defined.

(** C3: the classifier has no capacity check.  On a line of twelve one-letter
    words the loop stores the twelfth at [left_args[MAX_ARGS]], one past the
    end of the array; on a line of eleven the end marker of line 164 goes
    there.  [main] reads such a line like any other.  The same store
    happens on every line of [MAX_ARGS] or more words without operator. *)
Theorem C3_store_past_capacity :
  classify "a b c d e f g h i j k l" = UB (OutOfBounds Aleft_args MAX_ARGS) /\
  classify "a b c d e f g h i j k" = UB (OutOfBounds Aleft_args MAX_ARGS) /\
  (forall fk o, exists w,
    main ["a b c d e f g h i j k l"] (init_world fk o)
    = Halt (Hfault (OutOfBounds Aleft_args MAX_ARGS)) w) /\
  (forall ts, "&" ∉ ts -> "|" ∉ ts -> "&&" ∉ ts -> MAX_ARGS <= length ts ->
     classify_tokens ts = UB (OutOfBounds Aleft_args MAX_ARGS)).
Proof.
  split; [vm_compute; reflexivity|]. split; [vm_compute; reflexivity|].
  split; [|exact classify_tokens_overflow].
  intros fk o. eexists. vm_compute. reflexivity.
Qed.

(** C6, counterexample: in [A | B | C] the second [|] is not appended to the
    secondary list; it resets [j], so the list is just [C].  Likewise the
    second [&&] of [A && B && C] resets [i]. *)
Lemma C6_counterexample :
  (exists p, classify "A | B | C" = OK p /\
             argv_list (right_args p) = ["C"] /\ j p = 1) /\
  (exists p, classify "A && B && C" = OK p /\
             argv_list (second_command p) = ["C"] /\ i p = 1).
Proof.
  split; eexists; (split; [vm_compute; reflexivity|]); split; reflexivity.
Qed.

(** C6, as amended: a token equal to [|] or [&&] is never stored as an
    argument, wherever it appears.  Every [|] the scan reaches (no [&] comes
    before the first operator token of the line), first or not, resets [j],
    so the pipeline-secondary list ends up holding exactly the tokens after
    the last [|], followed by the end marker; every [&&] the scan reaches
    resets [i], so outside pipeline mode the sequence-secondary list holds
    exactly the tokens after the last [&&], followed by the end marker.  A
    [&] after the first operator is an ordinary token of these lists. *)
Theorem C6_operators_restart_lists (pre post : list string) (p : locals) :
  scanned_through pre = true -> "|" ∉ post -> "&&" ∉ post ->
  (classify_tokens (pre ++ "|" :: post) = OK p ->
   in_pipe p = true /\ j p = length post /\
   c_argv (right_args p) = Some post) /\
  (classify_tokens (pre ++ "&&" :: post) = OK p -> "|" ∉ pre ->
   has_second_command p = true /\ i p = length post /\
   c_argv (second_command p) = Some post) /\
  (forall tokens q, classify_tokens tokens = OK q ->
     (Tok "|" ∉ left_args q ++ right_args q ++ second_command q) /\
     (Tok "&&" ∉ left_args q ++ right_args q ++ second_command q)).
Proof.
  intros Hpre Hp1 Hp2. split; [|split].
  - intros H. destruct (classify_after_pipe_through _ _ _ Hpre Hp1 Hp2 H)
      as (? & _ & ? & ?). auto.
  - intros H Hpre1.
    destruct (classify_after_sequence_through _ _ _ Hpre Hpre1 Hp1 Hp2 H)
      as (? & _ & _ & ? & ?). auto.
  - intros tokens q H.
    destruct (classify_tokens_no_operator_cells _ _ H) as (F1 & F2 & F3).
    pose proof (Forall_app_2 _ _ _ F1 (Forall_app_2 _ _ _ F2 F3)) as F.
    rewrite Forall_forall in F.
    split; intros Hin; destruct (F _ Hin) as (N1 & N2); congruence.
Qed.

Lemma C6_operators_restart_lists_witness :
  exists p,
    classify_tokens (["A"; "|"; "B"; "&"] ++ "|" :: ["C"; "&"]) = OK p /\
    in_pipe p = true /\ j p = 2 /\ c_argv (right_args p) = Some ["C"; "&"].
Proof.
  eexists. split; [vm_compute; reflexivity|].
  refine (proj1 (C6_operators_restart_lists
                   ["A"; "|"; "B"; "&"] ["C"; "&"] _ _ _ _) _).
  - reflexivity.
  - intros Hin. repeat (apply elem_of_cons in Hin as [Hin|Hin];
                        [discriminate|]). inversion Hin.
  - intros Hin. repeat (apply elem_of_cons in Hin as [Hin|Hin];
                        [discriminate|]). inversion Hin.
  - vm_compute; reflexivity.
Defined.

(** C8: when a [&] token comes before any [|] or [&&] token, the classifier
    sets [background] and stops at that [&]: the result does not depend on
    the tokens after it, no operator flag is set, and the primary list is
    the words before the [&].  Within the capacity of the array such a line
    is always classified. *)
Theorem C8_background_stops_scan (pre post : list string) :
  "|" ∉ pre -> "&&" ∉ pre ->
  (forall post',
      classify_tokens (pre ++ "&" :: post')
      = classify_tokens (pre ++ "&" :: post)) /\
  (forall p, classify_tokens (pre ++ "&" :: post) = OK p ->
     background p = true /\ in_pipe p = false /\
     has_second_command p = false /\
     ("&" ∉ pre -> argv_list (left_args p) = pre)) /\
  ("&" ∉ pre -> length pre < MAX_ARGS ->
   exists p, classify_tokens (pre ++ "&" :: post) = OK p).
Proof.
  intros Hn1 Hn2. split; [|split].
  - intros post'. unfold classify_tokens.
    destruct (scan_background_break pre init_locals post' post
                eq_refl eq_refl Hn1 Hn2) as (-> & _). reflexivity.
  - intros p H. apply classify_tokens_inv in H as (l & Hs & Ht).
    destruct (scan_background_break pre init_locals post post
                eq_refl eq_refl Hn1 Hn2) as (_ & Hb).
    destruct (Hb _ Hs) as (Bb & Bp & Bs).
    destruct (terminate_lists_flags _ _ Ht) as (Fp & Fs & Fb & _).
    split; [congruence|]. split; [congruence|]. split; [congruence|].
    intros Hamp. rewrite scan_app in Hs by (right; exact Hamp).
    apply res_bind_OK in Hs as (l1 & Hs1 & Hs).
    destruct (scan_args _ _ _ Hs1 Hn1 Hn2 (or_introl Hamp) wf_init_locals)
      as (W1 & Ep & Es & _ & Hrun).
    simpl in Ep, Es, Hrun. destruct Hrun as (Hj & Htake & _).
    simpl in Hs. unfold loop_body in Hs. rewrite Ep, Es in Hs. simpl in Hs.
    inversion Hs; subst l. clear Hs.
    destruct (terminate_lists_arrays _ _ Ht) as (Hk & _ & Hl & _).
    simpl in Hk, Hl. rewrite Hl. destruct W1 as (Wl & _).
    apply argv_list_terminated; [lia | exact Htake].
  - intros Hamp Hlen.
    destruct (scan_plain_defined pre init_locals eq_refl eq_refl
                Hamp Hn1 Hn2) as (l1 & Hs1); [simpl; lia|].
    destruct (scan_args _ _ _ Hs1 Hn1 Hn2 (or_introl Hamp) wf_init_locals)
      as (W1 & Ep & Es & _ & Hrun).
    simpl in Ep, Es, Hrun. destruct Hrun as (Hj & _ & _ & _ & Hi).
    unfold classify_tokens. rewrite scan_app by (right; exact Hamp).
    rewrite Hs1. simpl. unfold loop_body. rewrite Ep, Es. simpl.
    unfold terminate_lists. simpl.
    rewrite !store_in_bounds by (unfold MAX_ARGS in *; lia).
    simpl. eauto.
Qed.

Lemma C8_background_stops_scan_witness :
  classify_tokens (["cmd1"] ++ "&" :: ["cmd2"; "x"])
  = classify_tokens (["cmd1"] ++ "&" :: ["cmd2"]).
Proof.
  refine (proj1 (C8_background_stops_scan ["cmd1"] ["cmd2"] _ _) _).
  - intros Hin. apply elem_of_cons in Hin as [Hin|Hin]; [discriminate|].
    inversion Hin.
  - intros Hin. apply elem_of_cons in Hin as [Hin|Hin]; [discriminate|].
    inversion Hin.
Defined.

(** C2: an empty primary command is not skipped.  On the empty line, with
    [fork] answering pid 100, the interpreter creates a child and waits for
    it; that child (the run in which [fork] answers 0) calls [execvp] with a
    NULL program name.  Lines that start with an operator fork as well, and
    in general every line with an empty primary command and no pipeline
    calls [fork]. *)
Theorem C2_empty_primary_forks :
  trace (world_of (process_command_line "" (init_world [100%Z] (friendly 1))))
  = [Efork 100; Ewaitpid 100] /\
  (exists w args,
      process_command_line "" (init_world [0%Z] (friendly 1))
      = Halt (Hfault NullDeref) w /\
      trace w = [Efork 0; Eexecvp NULL args]) /\
  trace (world_of (process_command_line "| wc"
                     (init_world [100%Z; 101%Z] (friendly 1))))
  = [Epipe (Some (3%Z, 4%Z)); Efork 100; Efork 101; Eclose 3; Eclose 4;
     Ewaitpid 100; Ewaitpid 101] /\
  trace (world_of (process_command_line "&& ls"
                     (init_world [100%Z; 101%Z] (friendly 1))))
  = [Efork 100; Ewaitpid 100] /\
  (forall command l w,
      classify command = OK l -> load (left_args l) 0 = OK NULL ->
      in_pipe l = false ->
      exists r tl,
        trace (world_of (process_command_line command w))
        = trace w ++ Efork r :: tl).
Proof.
  split; [vm_compute; reflexivity|]. split.
  { do 2 eexists. split; vm_compute; reflexivity. }
  split; [vm_compute; reflexivity|]. split; [vm_compute; reflexivity|].
  exact empty_primary_forks.
Qed.

(** C4: the orchestrator has a branch for a pipeline run in the background
    (lines 205-207: with [background] set the parent prints both process
    identifiers and waits for neither child), but the classifier never
    produces the state that reaches it, because the guard of line 142 takes
    [&] for the background marker only while neither operator has been
    seen.  On [A | B &] the pipeline flag is set and [background] is not,
    the [&] is the last argument of [B], and the parent waits for both
    children and prints no identifier.  No line at all is classified with
    the pipeline flag and [background] both set. *)
Theorem C4_background_marker_lost_after_pipe :
  (exists p, classify "A | B &" = OK p /\
             in_pipe p = true /\ background p = false /\
             c_argv (right_args p) = Some ["B"; "&"]) /\
  trace (world_of (process_command_line "A | B &"
                     (init_world [100%Z; 101%Z] (friendly 0))))
  = [Epipe (Some (3%Z, 4%Z)); Efork 100; Efork 101; Eclose 3; Eclose 4;
     Ewaitpid 100; Ewaitpid 101] /\
  (forall command p,
      classify command = OK p -> in_pipe p = true -> background p = false) /\
  (forall l w r wr pid1 pid2 rest,
      background l = true ->
      os_pipe (os w) = Some (r, wr) -> forks w = pid1 :: pid2 :: rest ->
      pid1 <> 0%Z -> pid2 <> 0%Z ->
      trace (world_of (run_pipeline l w))
      = trace w ++ [Epipe (Some (r, wr)); Efork pid1; Efork pid2; Eclose r;
                    Eclose wr;
                    Eprintf "Background processes started with PID: %d and %d\n"
                            [PInt pid1; PInt pid2]]).
Proof.
  split; [|split; [|split]].
  - eexists. split; [vm_compute; reflexivity|].
    repeat split; vm_compute; reflexivity.
  - vm_compute. reflexivity.
  - intros command p H Hin. unfold classify in H.
    destruct (classify_tokens_inv _ _ H) as (l & Hs & Ht).
    destruct (terminate_lists_flags _ _ Ht) as (Fp & _ & Fb & _).
    destruct (scan_flags _ _ _ Hs) as (_ & _ & _ & _ & Hbg).
    destruct (background l) eqn:E; [|congruence].
    destruct (Hbg eq_refl eq_refl) as (Hq & _). congruence.
  - intros l w r wr pid1 pid2 rest Hb Hp Hf H1 H2.
    unfold run_pipeline, bind, pipe, ask, emit, fork.
    simpl. rewrite Hp. simpl. rewrite Hf.
    destruct (Z.eqb_spec pid1 0); [congruence|]. simpl.
    destruct (Z.eqb_spec pid2 0); [congruence|]. simpl.
    rewrite Hb. simpl. unfold printf, emit. simpl.
    rewrite <- !app_assoc. reflexivity.
Qed.

(** C7, counterexample: [pwd | wc] is a foreground pipeline line (the
    pipeline flag is set, [background] is not), and yet no pipe and no
    child is created and nothing is waited for: the builtin test of line
    169 comes first, [pwd] runs in the interpreter and the function
    returns. *)
Lemma C7_counterexample :
  exists p, classify "pwd | wc" = OK p /\
            in_pipe p = true /\ background p = false /\
            c_argv (left_args p) = Some ["pwd"] /\
            c_argv (right_args p) = Some ["wc"] /\
            trace (world_of (process_command_line "pwd | wc"
                               (init_world [100%Z; 101%Z] (friendly 0))))
            = [Egetcwd; Eprintf "%s\n" [PStr "/tmp"]].
Proof.
  eexists. split; [vm_compute; reflexivity|].
  repeat split; vm_compute; reflexivity.
Qed.

(** C7, as amended: on every pipeline line whose primary command is not a
    builtin name and for which [pipe] succeeds, the line runs in the
    foreground; the parent forks twice, closes both pipe ends and then
    waits for the first and the second child; the first child closes the
    read end, makes the write end its standard output, closes the write end
    and calls [execvp] on the primary command; the second child closes the
    write end, makes the read end its standard input, closes the read end
    and calls [execvp] on the secondary command. *)
Theorem C7_pipeline_orchestration
    (command : string) (l : locals) (w : world) (a0 : cptr) (r wr : Z) :
  classify command = OK l -> in_pipe l = true ->
  load (left_args l) 0 = OK a0 -> is_builtin a0 = false ->
  os_pipe (os w) = Some (r, wr) ->
  background l = false /\
  (forall pid1 pid2 rest,
      forks w = pid1 :: pid2 :: rest -> (0 < pid1)%Z -> (0 < pid2)%Z ->
      process_command_line command w
      = Ret tt (mkWorld (history (after_history command w))
                        (history_count (after_history command w))
                        rest (os w)
                        (trace w ++ [Epipe (Some (r, wr)); Efork pid1;
                                     Efork pid2; Eclose r; Eclose wr;
                                     Ewaitpid pid1; Ewaitpid pid2]))) /\
  (forall rest,
      forks w = 0%Z :: rest ->
      exists tl,
        trace (world_of (process_command_line command w))
        = trace w ++ [Epipe (Some (r, wr)); Efork 0; Eclose r;
                      Edup2 wr STDOUT_FILENO; Eclose wr;
                      Eexecvp a0 (left_args l)] ++ tl /\
        (tl = [] \/ tl = [Eperror "execvp"; Eexit EXIT_FAILURE])) /\
  (forall pid1 rest,
      forks w = pid1 :: 0%Z :: rest -> (0 < pid1)%Z ->
      exists b0 tl,
        load (right_args l) 0 = OK b0 /\
        trace (world_of (process_command_line command w))
        = trace w ++ [Epipe (Some (r, wr)); Efork pid1; Efork 0; Eclose wr;
                      Edup2 r STDIN_FILENO; Eclose r;
                      Eexecvp b0 (right_args l)] ++ tl /\
        (tl = [] \/ tl = [Eperror "execvp"; Eexit EXIT_FAILURE])).
Proof.
  intros Hc Hin Hl Hnb Hpipe.
  destruct (after_history_frame command w) as (Ff & Fo & Ft).
  assert (Hd : process_command_line command w
               = run_pipeline l (after_history command w)).
  { rewrite (process_command_line_classified _ _ _ Hc).
    unfold dispatch, bind, lift. rewrite Hl, Hnb, Hin. reflexivity. }
  assert (Hbg : background l = false).
  { unfold classify in Hc.
    destruct (classify_tokens_inv _ _ Hc) as (l0 & Hs & Ht).
    destruct (terminate_lists_flags _ _ Ht) as (Fp & _ & Fb & _).
    destruct (scan_flags _ _ _ Hs) as (_ & _ & _ & _ & Hb).
    destruct (background l) eqn:E; [|reflexivity].
    destruct (Hb eq_refl) as (Hq & _); congruence. }
  split; [exact Hbg|]. rewrite Hd. split; [|split].
  - intros pid1 pid2 rest Hf H1 H2.
    rewrite (run_pipeline_parent l _ r wr pid1 pid2 rest);
      rewrite ?Fo, ?Ft, ?Ff; auto; lia.
  - intros rest Hf. rewrite <- Ft.
    apply run_pipeline_child1 with (rest := rest); rewrite ?Fo, ?Ff; auto.
  - intros pid1 rest Hf H1.
    destruct (classify_tokens_heads _ _ Hc) as (_ & Hr).
    destruct (Hr Hin) as (b0 & Hb0). exists b0.
    destruct (run_pipeline_child2 l (after_history command w) r wr pid1 rest
                b0) as (tl & Htl & Hor); rewrite ?Fo, ?Ff; auto; try lia.
    exists tl. rewrite <- Ft. auto.
Qed.

Lemma C7_pipeline_orchestration_witness :
  exists l, classify "ls -l | wc -l" = OK l /\ background l = false.
Proof.
  eexists. split; [vm_compute; reflexivity|].
  refine (proj1 (C7_pipeline_orchestration "ls -l | wc -l" _
                   (init_world [100%Z; 101%Z] (friendly 0)) (Tok "ls")
                   3%Z 4%Z _ _ _ _ _)); vm_compute; reflexivity.
Defined.

(** C5: the secondary command also runs when the primary did not exit at
    all.  With every child killed by signal 11, the line [A && B] forks and
    waits for [A] and then forks [B], whose child calls [execvp] on [B]; the
    run is the same as when [A] exits with status 0, and differs from the one
    where [A] exits with status 1.  In general, on a sequence line with a
    non-builtin primary, the secondary is run after exit status 0 and after
    death by a signal, and skipped after any other exit status. *)
Theorem C5_signalled_primary_runs_secondary :
  trace (world_of (process_command_line "A && B"
                     (init_world [100%Z; 101%Z] (killed 11))))
  = [Efork 100; Ewaitpid 100; Efork 101; Ewaitpid 101] /\
  (exists w args,
      process_command_line "A && B" (init_world [100%Z; 0%Z] (killed 11))
      = Halt Hexec w /\
      trace w = [Efork 100; Ewaitpid 100; Efork 0; Eexecvp (Tok "B") args] /\
      argv_list args = ["B"]) /\
  trace (world_of (process_command_line "A && B"
                     (init_world [100%Z; 101%Z] (friendly 0))))
  = [Efork 100; Ewaitpid 100; Efork 101; Ewaitpid 101] /\
  trace (world_of (process_command_line "A && B"
                     (init_world [100%Z; 101%Z] (friendly 1))))
  = [Efork 100; Ewaitpid 100] /\
  (forall command l w a0 pid rest,
      classify command = OK l ->
      has_second_command l = true -> in_pipe l = false ->
      load (left_args l) 0 = OK a0 -> is_builtin a0 = false ->
      forks w = pid :: rest -> (0 < pid)%Z ->
      let w1 := mkWorld (history (after_history command w))
                        (history_count (after_history command w))
                        rest (os w) (trace w ++ [Efork pid; Ewaitpid pid]) in
      process_command_line command w
      = match os_wait (os w) pid with
        | Exited code =>
            if (code =? 0)%Z
            then bind (run_sequence_command (second_command l) false)
                      (fun _ => ret tt) w1
            else Ret tt w1
        | Signaled _ =>
            bind (run_sequence_command (second_command l) false)
                 (fun _ => ret tt) w1
        end).
Proof.
  split; [vm_compute; reflexivity|]. split.
  { do 2 eexists. split; [vm_compute; reflexivity|].
    split; vm_compute; reflexivity. }
  split; [vm_compute; reflexivity|]. split; [vm_compute; reflexivity|].
  exact sequence_line_dispatch.
Qed.



(** C9: every processed line appends exactly one entry (line 137 is the
    only change to the history, whatever the line then does); the buffer
    never holds more than [HISTORY_SIZE] = 10 entries and the entries are
    the last ten of the old entries followed by the new line, so the oldest
    goes first.  The line [history] prints the listing of the buffer as it
    is once that line itself is recorded.  After twelve lines (each fitting
    the command buffer) submitted to an empty history, the listing shows
    lines 3 to 12 in submission order, numbered 1 to 10. *)
Theorem C9_history_keeps_last_ten (command : string) (w : world) :
  length (history w) = HISTORY_SIZE -> history_count w <= HISTORY_SIZE ->
  let w' := world_of (process_command_line command w) in
  (history w', history_count w')
  = add_to_history_pure command (history w, history_count w) /\
  length (history w') = HISTORY_SIZE /\ history_count w' <= HISTORY_SIZE /\
  take (history_count w') (history w')
  = lastn HISTORY_SIZE (take (history_count w) (history w)
                        ++ [strncpy_terminated command]) /\
  trace (world_of (process_command_line "history" w))
  = trace w ++ history_listing (history (after_history "history" w))
                               (history_count (after_history "history" w)) /\
  (forall l1 l2 l3 l4 l5 l6 l7 l8 l9 l10 l11 l12 : string,
      Forall (fun s => String.length s < MAX_COMMAND_LENGTH)
             [l1; l2; l3; l4; l5; l6; l7; l8; l9; l10; l11; l12] ->
      let hc := add_all [l1; l2; l3; l4; l5; l6; l7; l8; l9; l10; l11; l12]
                        (init_history, 0) in
      hc.2 = HISTORY_SIZE /\
      history_listing hc.1 hc.2
      = [Eprintf "%d: %s\n" [PInt 1; PStr l3];
         Eprintf "%d: %s\n" [PInt 2; PStr l4];
         Eprintf "%d: %s\n" [PInt 3; PStr l5];
         Eprintf "%d: %s\n" [PInt 4; PStr l6];
         Eprintf "%d: %s\n" [PInt 5; PStr l7];
         Eprintf "%d: %s\n" [PInt 6; PStr l8];
         Eprintf "%d: %s\n" [PInt 7; PStr l9];
         Eprintf "%d: %s\n" [PInt 8; PStr l10];
         Eprintf "%d: %s\n" [PInt 9; PStr l11];
         Eprintf "%d: %s\n" [PInt 10; PStr l12]]).
Proof.
  intros Hlen Hcount w'.
  pose proof (process_command_line_history command w) as Hh. fold w' in Hh.
  assert (W : wf_history (history w, history_count w)) by (split; assumption).
  destruct (add_to_history_entries command _ W) as ((W1 & W2) & He).
  rewrite <- Hh in W1, W2, He. unfold entries in He. simpl in W1, W2, He.
  split; [exact Hh|]. split; [exact W1|]. split; [exact W2|].
  split; [exact He|].
  split; [rewrite history_builtin_prints; reflexivity|].
  intros l1 l2 l3 l4 l5 l6 l7 l8 l9 l10 l11 l12 Hshort hc.
  destruct (history_after_lines _ Hshort) as (Hc & Hl). fold hc in Hc, Hl.
  split; [exact Hc|exact Hl].
Qed.

Lemma C9_history_keeps_last_ten_witness :
  length (history (world_of (process_command_line "ls"
                               (init_world [100%Z] (friendly 0)))))
  = HISTORY_SIZE.
Proof.
  refine (proj1 (proj2 (C9_history_keeps_last_ten "ls"
                          (init_world [100%Z] (friendly 0)) _ _)));
    vm_compute; (reflexivity || lia).
Defined.

(** * Further properties of the code *)

(** ** Tokenizer *)

Lemma append_cons c s t : String c s +:+ t = String c (s +:+ t).
Proof. reflexivity. Qed.

Lemma append_nil_l t : "" +:+ t = t.
Proof. reflexivity. Qed.

Lemma append_nil_r s : s +:+ "" = s.
Proof.
  induction s as [|c s IH]; [reflexivity|].
  rewrite append_cons, IH. reflexivity.
Qed.

Lemma append_assoc a b c : (a +:+ b) +:+ c = a +:+ (b +:+ c).
Proof.
  induction a as [|x a IH]; [reflexivity|].
  rewrite !append_cons, IH. reflexivity.
Qed.

Lemma delim_free_app a b :
  delim_free (a +:+ b) = delim_free a && delim_free b.
Proof.
  induction a as [|c a IH]; [reflexivity|].
  rewrite append_cons. simpl. rewrite IH, andb_assoc. reflexivity.
Qed.

Lemma strtok_from_clean s : forall tok,
  delim_free tok = true -> Forall is_word (strtok_from s tok).
Proof.
  induction s as [|c s IH]; intros tok Htok; simpl.
  - destruct (String.eqb_spec tok ""); [constructor|].
    repeat constructor; assumption.
  - destruct (is_delim c) eqn:Hc.
    + destruct (String.eqb_spec tok ""); [apply IH; reflexivity|].
      constructor; [split; assumption | apply IH; reflexivity].
    + apply IH. rewrite delim_free_app, Htok. simpl. rewrite Hc. reflexivity.
Qed.

(** A delimiter-free stretch of the buffer is added to the token being
    accumulated. *)
Lemma strtok_from_word t : forall rest tok,
  delim_free t = true ->
  strtok_from (t +:+ rest) tok = strtok_from rest (tok +:+ t).
Proof.
  induction t as [|c t IH]; intros rest tok Ht.
  - rewrite append_nil_l, append_nil_r. reflexivity.
  - simpl in Ht. apply andb_true_iff in Ht as (Hc & Ht).
    apply negb_true_iff in Hc.
    rewrite append_cons. simpl. rewrite Hc, IH by exact Ht.
    rewrite append_assoc. reflexivity.
Qed.

Lemma strtok_from_space s tok :
  String.eqb tok "" = false ->
  strtok_from (String " " s) tok = tok :: strtok_from s "".
Proof. intros H. simpl. rewrite H. reflexivity. Qed.

(** X1: every token [strtok] hands out is non-empty and holds no space, tab
    or newline, whatever the line. *)
Theorem X1_tokens_are_words (command : string) :
  Forall is_word (strtok command).
Proof. apply strtok_from_clean. reflexivity. Qed.

(** X2: tokenizing is a left inverse of joining words with single spaces:
    a line made of words separated by one space each is split into exactly
    those words, in order. *)
Theorem X2_strtok_unwords (ts : list string) :
  Forall is_word ts -> strtok (unwords ts) = ts.
Proof.
  unfold strtok. induction 1 as [|t rest (Hne & Hdf) Hrest IH];
    [reflexivity|].
  assert (Heqb : String.eqb t "" = false) by (apply String.eqb_neq; exact Hne).
  destruct rest as [|t2 rest2].
  - change (unwords [t]) with t.
    rewrite <- (append_nil_r t) at 1. rewrite strtok_from_word by exact Hdf.
    rewrite append_nil_l. simpl. rewrite Heqb. reflexivity.
  - change (unwords (t :: t2 :: rest2))
      with (t +:+ String " " (unwords (t2 :: rest2))).
    rewrite strtok_from_word by exact Hdf. rewrite append_nil_l.
    rewrite strtok_from_space by exact Heqb. rewrite IH. reflexivity.
Qed.

Lemma X2_strtok_unwords_witness :
  strtok (unwords ["ls"; "-l"; "|"; "wc"]) = ["ls"; "-l"; "|"; "wc"].
Proof.
  apply X2_strtok_unwords.
  repeat constructor; try discriminate.
Defined.

(** ** Classifier within the capacity of the arrays *)

Lemma scan_within_capacity ts : forall l,
  j l + length ts < MAX_ARGS -> i l + length ts < MAX_ARGS ->
  exists l', scan ts l = OK l' /\
             j l' <= j l + length ts /\ i l' <= i l + length ts.
Proof.
  induction ts as [|t ts IH]; intros l Hj Hi; simpl in *.
  - exists l. split; [reflexivity | lia].
  - unfold loop_body.
    destruct (String.eqb t "&" && negb (in_pipe l)
              && negb (has_second_command l)).
    { eexists. split; [reflexivity | simpl; lia]. }
    destruct (String.eqb t "|").
    { rewrite store_in_bounds by lia. simpl.
      destruct (IH (mkLocals (<[j l := NULL]> (left_args l)) (right_args l)
                      (second_command l) (i l) 0 true (background l)
                      (has_second_command l))) as (l' & Hs & Hj' & Hi');
        simpl in *; try lia.
      exists l'. split; [exact Hs | lia]. }
    destruct (String.eqb t "&&").
    { rewrite store_in_bounds by lia. simpl.
      destruct (IH (mkLocals (<[j l := NULL]> (left_args l)) (right_args l)
                      (second_command l) 0 (j l) (in_pipe l) (background l)
                      true)) as (l' & Hs & Hj' & Hi');
        simpl in *; try lia.
      exists l'. split; [exact Hs | lia]. }
    destruct (in_pipe l); [|destruct (has_second_command l)];
      rewrite store_in_bounds by lia; simpl;
      match goal with
      | |- exists l', scan ts ?l1 = _ /\ _ =>
          destruct (IH l1) as (l' & Hs & Hj' & Hi'); simpl in *; try lia;
          exists l'; split; [exact Hs | lia]
      end.
Qed.

(** X3: a line of fewer than [MAX_ARGS] tokens, whatever operators it holds,
    is classified without any store outside the arrays, and its first
    argument can be read. *)
Theorem X3_classify_within_capacity (command : string) :
  length (strtok command) < MAX_ARGS ->
  exists p a0, classify command = OK p /\ load (left_args p) 0 = OK a0 /\
               j p < MAX_ARGS /\ i p < MAX_ARGS.
Proof.
  intros Hlen. unfold classify.
  destruct (scan_within_capacity (strtok command) init_locals)
    as (l & Hs & Hj & Hi); simpl; try lia.
  simpl in Hj, Hi.
  assert (Hc : classify_tokens (strtok command)
               = OK (mkLocals (<[j l := NULL]> (left_args l))
                              (<[j l := NULL]> (right_args l))
                              (<[i l := NULL]> (second_command l))
                              (i l) (j l) (in_pipe l) (background l)
                              (has_second_command l))).
  { unfold classify_tokens. rewrite Hs. simpl. unfold terminate_lists.
    rewrite !store_in_bounds by lia. reflexivity. }
  destruct (classify_tokens_heads _ _ Hc) as ((a0 & Ha0) & _).
  eexists. exists a0. split; [exact Hc|]. split; [exact Ha0|].
  simpl. lia.
Qed.

Lemma X3_classify_within_capacity_witness :
  exists p a0, classify "a | b && c & d |" = OK p /\
               load (left_args p) 0 = OK a0 /\
               j p < MAX_ARGS /\ i p < MAX_ARGS.
Proof.
  apply X3_classify_within_capacity. vm_compute. lia.
Defined.

(** A line of ordinary words fills the primary list and sets no flag. *)
Lemma classify_plain ts :
  ordinary ts -> length ts < MAX_ARGS ->
  exists p, classify_tokens ts = OK p /\
            in_pipe p = false /\ has_second_command p = false /\
            background p = false /\ argv_list (left_args p) = ts.
Proof.
  intros (H1 & H2 & H3) Hlen.
  destruct (scan_plain_defined ts init_locals eq_refl eq_refl H1 H2 H3)
    as (l & Hs); [simpl; lia|].
  destruct (scan_args _ _ _ Hs H2 H3 (or_introl H1) wf_init_locals)
    as ((Wl & _) & Ep & Es & Eb & Hrun).
  simpl in Ep, Es, Eb, Hrun. destruct Hrun as (Hj & Htake & _ & _ & Hi).
  unfold classify_tokens. rewrite Hs. simpl. unfold terminate_lists.
  rewrite !store_in_bounds by lia. simpl. eexists. split; [reflexivity|].
  simpl. repeat split; auto.
  apply argv_list_terminated; [lia | exact Htake].
Qed.

Lemma argv_list_head arr t rest :
  argv_list arr = t :: rest -> load arr 0 = OK (Tok t).
Proof.
  destruct arr as [|[| |s] arr]; simpl; try discriminate.
  intros H. inversion H; subst. reflexivity.
Qed.

(** ** Running one command *)

(** [run_sequence_command] in the process where [fork] answered 0. *)
Lemma run_sequence_command_child args bg w rest f :
  forks w = 0%Z :: rest -> load args 0 = OK (Tok f) ->
  run_sequence_command args bg w
  = Halt (if os_exec (os w) f then Hexec else Hexit EXIT_FAILURE)
         (mkWorld (history w) (history_count w) rest (os w)
            (trace w ++ Efork 0 :: Eexecvp (Tok f) args ::
               (if os_exec (os w) f then []
                else [Efprintf_stderr "Error: Command not found\n";
                      Eexit EXIT_FAILURE]))).
Proof.
  intros Hf Hl. unfold run_sequence_command, bind, fork. rewrite Hf. simpl.
  unfold lift. rewrite Hl. unfold execvp, bind, emit, ask, exit. simpl.
  destruct (os_exec (os w) f); simpl; rewrite <- !app_assoc; reflexivity.
Qed.

(** [run_sequence_command] when [fork] fails. *)
Lemma run_sequence_command_fork_fails args bg w r rest :
  forks w = r :: rest -> (r < 0)%Z ->
  run_sequence_command args bg w
  = Ret (-1)%Z (mkWorld (history w) (history_count w) rest (os w)
                  (trace w ++ [Efork r; Eperror "fork"])).
Proof.
  intros Hf Hr. unfold run_sequence_command, bind, fork. rewrite Hf.
  destruct (Z.ltb_spec r 0); [|lia]. simpl. rewrite <- app_assoc.
  reflexivity.
Qed.

(** X4: a line of ordinary words (no operator token) within capacity whose
    first word is not a builtin creates exactly one child and waits for it
    before returning to the prompt; in the child, [execvp] is called on the
    first word with an argument array that holds exactly the words of the
    line followed by the [NULL] end marker, and if it fails the child
    reports it and exits with [EXIT_FAILURE]. *)
Theorem X4_plain_line_one_child
    (command t0 : string) (ts : list string) (w : world) :
  strtok command = t0 :: ts -> ordinary (t0 :: ts) ->
  length (t0 :: ts) < MAX_ARGS -> is_builtin (Tok t0) = false ->
  (forall pid rest,
      forks w = pid :: rest -> (0 < pid)%Z ->
      process_command_line command w
      = Ret tt (mkWorld (history (after_history command w))
                        (history_count (after_history command w))
                        rest (os w) (trace w ++ [Efork pid; Ewaitpid pid]))) /\
  (forall rest,
      forks w = 0%Z :: rest ->
      exists args w',
        c_argv args = Some (t0 :: ts) /\
        args !! length (t0 :: ts) = Some NULL /\
        process_command_line command w
        = Halt (if os_exec (os w) t0 then Hexec else Hexit EXIT_FAILURE) w' /\
        trace w'
        = trace w ++ Efork 0 :: Eexecvp (Tok t0) args ::
            (if os_exec (os w) t0 then []
             else [Efprintf_stderr "Error: Command not found\n";
                   Eexit EXIT_FAILURE])).
Proof.
  intros Htok Hord Hlen Hnb.
  destruct Hord as (Ho1 & Ho2 & Ho3).
  destruct (classify_plain_argv _ Ho1 Ho2 Ho3 Hlen)
    as (p & Hc & Hp & Hs & Hb & Hargs).
  assert (Hcl : classify command = OK p) by (unfold classify; rewrite Htok; exact Hc).
  pose proof (argv_list_head _ _ _ (c_argv_argv_list _ _ Hargs)) as Hl.
  destruct (after_history_frame command w) as (Ff & Fo & Ft).
  assert (Hd : process_command_line command w
               = bind (run_sequence_command (left_args p) false)
                      (fun _ => ret tt) (after_history command w)).
  { rewrite (process_command_line_classified _ _ _ Hcl).
    unfold dispatch. unfold bind at 1. unfold lift. rewrite Hl, Hnb, Hp, Hs, Hb.
    reflexivity. }
  rewrite Hd. split.
  - intros pid rest Hf Hpid. unfold bind.
    rewrite (run_sequence_command_parent _ _ pid rest) by (rewrite ?Ff; auto).
    rewrite Fo, Ft.
    destruct (WIFEXITED (os_wait (os w) pid)); reflexivity.
  - intros rest Hf. exists (left_args p). unfold bind.
    rewrite (run_sequence_command_child _ _ _ rest t0)
      by (rewrite ?Ff; auto).
    rewrite Fo, Ft. eexists. split; [exact Hargs|].
    split; [exact (c_argv_end _ _ Hargs)|]. split; reflexivity.
Qed.

Lemma X4_plain_line_one_child_witness :
  process_command_line "ls -l /tmp" (init_world [100%Z] (friendly 0))
  = Ret tt (mkWorld
              (history (after_history "ls -l /tmp"
                          (init_world [100%Z] (friendly 0))))
              (history_count (after_history "ls -l /tmp"
                                (init_world [100%Z] (friendly 0))))
              [] (friendly 0) ([] ++ [Efork 100; Ewaitpid 100])) /\
  exists args w',
    c_argv args = Some ["ls"; "-l"; "/tmp"] /\
    args !! 3 = Some NULL /\
    process_command_line "ls -l /tmp" (init_world [0%Z] (friendly 0))
    = Halt Hexec w' /\
    trace w' = [Efork 0; Eexecvp (Tok "ls") args].
Proof.
  pose proof (fun w => X4_plain_line_one_child
                         "ls -l /tmp" "ls" ["-l"; "/tmp"] w) as H.
  assert (Ht : strtok "ls -l /tmp" = ["ls"; "-l"; "/tmp"])
    by (vm_compute; reflexivity).
  assert (Ho : ordinary ["ls"; "-l"; "/tmp"]).
  { repeat split; intros Hin;
      repeat (apply elem_of_cons in Hin as [Hin|Hin]; [discriminate|]);
      inversion Hin. }
  assert (Hl : length ["ls"; "-l"; "/tmp"] < MAX_ARGS) by (vm_compute; lia).
  split.
  - refine (proj1 (H (init_world [100%Z] (friendly 0)) Ht Ho Hl eq_refl)
                   100%Z [] eq_refl _). lia.
  - exact (proj2 (H (init_world [0%Z] (friendly 0)) Ht Ho Hl eq_refl)
                 [] eq_refl).
Defined.

Lemma background_excludes_operators command l :
  classify command = OK l -> background l = true ->
  in_pipe l = false /\ has_second_command l = false.
Proof.
  unfold classify. intros Hc Hb.
  destruct (classify_tokens_inv _ _ Hc) as (l0 & Hs & Ht).
  destruct (terminate_lists_flags _ _ Ht) as (Fp & Fs & Fb & _).
  destruct (scan_flags _ _ _ Hs) as (_ & _ & _ & _ & Hbg).
  rewrite Fp, Fs. apply Hbg; [reflexivity | congruence].
Qed.

(** X5: on a line classified as background whose primary command is not a
    builtin, the interpreter forks once, prints the child's pid and returns
    to the prompt without calling [waitpid]. *)
Theorem X5_background_line_does_not_wait
    (command : string) (l : locals) (w : world) (a0 : cptr)
    (pid : Z) (rest : list Z) :
  classify command = OK l -> background l = true ->
  load (left_args l) 0 = OK a0 -> is_builtin a0 = false ->
  forks w = pid :: rest -> (0 < pid)%Z ->
  process_command_line command w
  = Ret tt (mkWorld (history (after_history command w))
                    (history_count (after_history command w))
                    rest (os w)
                    (trace w ++ [Efork pid;
                                 Eprintf "Background process with PID: %d\n"
                                         [PInt pid]])).
Proof.
  intros Hc Hb Hl Hnb Hf Hpid.
  destruct (background_excludes_operators _ _ Hc Hb) as (Hp & Hs).
  destruct (after_history_frame command w) as (Ff & Fo & Ft).
  rewrite (process_command_line_classified _ _ _ Hc).
  unfold dispatch. unfold bind at 1. unfold lift. rewrite Hl, Hnb, Hp, Hs, Hb.
  unfold bind, run_sequence_command, bind, fork. rewrite Ff, Hf.
  destruct (Z.ltb_spec pid 0); [lia|]. destruct (Z.eqb_spec pid 0); [lia|].
  simpl. rewrite Fo, Ft, <- app_assoc. reflexivity.
Qed.

Lemma X5_background_line_does_not_wait_witness :
  exists l, classify "sleep 5 & ls" = OK l /\
            trace (world_of (process_command_line "sleep 5 & ls"
                               (init_world [100%Z] (friendly 0))))
            = [Efork 100;
               Eprintf "Background process with PID: %d\n" [PInt 100]].
Proof.
  eexists. split; [vm_compute; reflexivity|].
  rewrite (X5_background_line_does_not_wait "sleep 5 & ls"
             (mkLocals
                (<[2 := NULL]>
                   (<[1 := Tok "5"]> (<[0 := Tok "sleep"]> fresh_argv)))
                (<[2 := NULL]> fresh_argv)
                (<[0 := NULL]> fresh_argv)
                0 2 false true false)
             (init_world [100%Z] (friendly 0)) (Tok "sleep") 100%Z []);
    try (vm_compute; reflexivity).
Defined.

(** X7: when [fork] fails on a line that is not a pipeline and whose primary
    command is not a builtin, the failure is reported with [perror], nobody
    is waited for, and nothing else is attempted: on a sequence line the
    secondary command is not run. *)
Theorem X7_fork_failure_stops_the_line
    (command : string) (l : locals) (w : world) (a0 : cptr)
    (r : Z) (rest : list Z) :
  classify command = OK l -> in_pipe l = false ->
  load (left_args l) 0 = OK a0 -> is_builtin a0 = false ->
  forks w = r :: rest -> (r < 0)%Z ->
  process_command_line command w
  = Ret tt (mkWorld (history (after_history command w))
                    (history_count (after_history command w))
                    rest (os w) (trace w ++ [Efork r; Eperror "fork"])).
Proof.
  intros Hc Hp Hl Hnb Hf Hr.
  destruct (after_history_frame command w) as (Ff & Fo & Ft).
  rewrite (process_command_line_classified _ _ _ Hc).
  unfold dispatch. unfold bind at 1. unfold lift. rewrite Hl, Hnb, Hp.
  destruct (has_second_command l); unfold bind;
    rewrite (run_sequence_command_fork_fails _ _ _ r rest)
      by (rewrite ?Ff; auto);
    simpl; rewrite Fo, Ft; reflexivity.
Qed.

Lemma X7_fork_failure_stops_the_line_witness :
  trace (world_of (process_command_line "make && ./a.out"
                     (init_world [(-1)%Z; 101%Z] (friendly 0))))
  = [Efork (-1); Eperror "fork"].
Proof.
  rewrite (X7_fork_failure_stops_the_line "make && ./a.out"
             (mkLocals
                (<[1 := NULL]> (<[0 := Tok "make"]> fresh_argv))
                (<[1 := NULL]> fresh_argv)
                (<[1 := NULL]> (<[0 := Tok "./a.out"]> fresh_argv))
                1 1 false false true)
             (init_world [(-1)%Z; 101%Z] (friendly 0)) (Tok "make")
             (-1)%Z [101%Z]);
    vm_compute; reflexivity.
Defined.

Lemma run_pipeline_pipe_fails l w :
  os_pipe (os w) = None ->
  run_pipeline l w
  = Ret tt (mkWorld (history w) (history_count w) (forks w) (os w)
              (trace w ++ [Epipe None; Eperror "pipe"])).
Proof.
  intros Hp. unfold run_pipeline, bind, pipe, ask, emit, perror, emit.
  simpl. rewrite Hp. simpl. rewrite <- app_assoc. reflexivity.
Qed.

(** X8: when [pipe] fails on a pipeline line whose primary command is not a
    builtin, the failure is reported with [perror] and no child is
    created. *)
Theorem X8_pipe_failure_creates_no_child
    (command : string) (l : locals) (w : world) (a0 : cptr) :
  classify command = OK l -> in_pipe l = true ->
  load (left_args l) 0 = OK a0 -> is_builtin a0 = false ->
  os_pipe (os w) = None ->
  process_command_line command w
  = Ret tt (mkWorld (history (after_history command w))
                    (history_count (after_history command w))
                    (forks w) (os w)
                    (trace w ++ [Epipe None; Eperror "pipe"])).
Proof.
  intros Hc Hp Hl Hnb Hpipe.
  destruct (after_history_frame command w) as (Ff & Fo & Ft).
  rewrite (process_command_line_classified _ _ _ Hc).
  unfold dispatch. unfold bind at 1. unfold lift. rewrite Hl, Hnb, Hp.
  rewrite run_pipeline_pipe_fails by (rewrite Fo; exact Hpipe).
  rewrite Ff, Fo, Ft. reflexivity.
Qed.

Lemma X8_pipe_failure_creates_no_child_witness :
  trace (world_of (process_command_line "ls | wc"
                     (init_world [100%Z; 101%Z]
                        (mkOracle None (fun _ => Exited 0) (fun _ => true)
                                  None None (fun _ => true) true))))
  = [Epipe None; Eperror "pipe"].
Proof.
  rewrite (X8_pipe_failure_creates_no_child "ls | wc"
             (mkLocals
                (<[1 := NULL]> (<[0 := Tok "ls"]> fresh_argv))
                (<[1 := NULL]> (<[0 := Tok "wc"]> fresh_argv))
                (<[0 := NULL]> fresh_argv)
                0 1 true false false)
             _ (Tok "ls"));
    vm_compute; reflexivity.
Defined.

(** X9: in a pipeline a failed [fork] is not detected.  When the first
    [fork] answers a negative value the parent still forks the second
    child, closes both pipe ends and calls [waitpid] with that negative
    value as pid before waiting for the second child. *)
Theorem X9_pipeline_ignores_fork_failure
    (command : string) (l : locals) (w : world) (a0 : cptr)
    (r wr pid1 pid2 : Z) (rest : list Z) :
  classify command = OK l -> in_pipe l = true ->
  load (left_args l) 0 = OK a0 -> is_builtin a0 = false ->
  os_pipe (os w) = Some (r, wr) ->
  forks w = pid1 :: pid2 :: rest -> (pid1 < 0)%Z -> (0 < pid2)%Z ->
  process_command_line command w
  = Ret tt (mkWorld (history (after_history command w))
                    (history_count (after_history command w))
                    rest (os w)
                    (trace w ++ [Epipe (Some (r, wr)); Efork pid1;
                                 Efork pid2; Eclose r; Eclose wr;
                                 Ewaitpid pid1; Ewaitpid pid2])).
Proof.
  intros Hc Hp Hl Hnb Hpipe Hf H1 H2.
  destruct (after_history_frame command w) as (Ff & Fo & Ft).
  assert (Hbg : background l = false).
  { destruct (background l) eqn:Hb; [|reflexivity].
    destruct (background_excludes_operators _ _ Hc Hb). congruence. }
  rewrite (process_command_line_classified _ _ _ Hc).
  unfold dispatch. unfold bind at 1. unfold lift. rewrite Hl, Hnb, Hp.
  rewrite (run_pipeline_parent l _ r wr pid1 pid2 rest);
    rewrite ?Fo, ?Ft, ?Ff; auto; lia.
Qed.

Lemma X9_pipeline_ignores_fork_failure_witness :
  trace (world_of (process_command_line "ls | wc"
                     (init_world [(-1)%Z; 101%Z] (friendly 0))))
  = [Epipe (Some (3%Z, 4%Z)); Efork (-1); Efork 101; Eclose 3; Eclose 4;
     Ewaitpid (-1); Ewaitpid 101].
Proof.
  rewrite (X9_pipeline_ignores_fork_failure "ls | wc"
             (mkLocals
                (<[1 := NULL]> (<[0 := Tok "ls"]> fresh_argv))
                (<[1 := NULL]> (<[0 := Tok "wc"]> fresh_argv))
                (<[0 := NULL]> fresh_argv)
                0 1 true false false)
             (init_world [(-1)%Z; 101%Z] (friendly 0)) (Tok "ls")
             3%Z 4%Z (-1)%Z 101%Z []);
    try (vm_compute; reflexivity); lia.
Defined.

(** ** A child never comes back to the prompt *)

Lemma halts_exit {A} code : halts (@exit A code).
Proof. intros w. unfold exit. eauto. Qed.

Lemma halts_bind_l {A B} (m : M A) (k : A -> M B) : halts m -> halts (bind m k).
Proof. intros Hm w. unfold bind. destruct (Hm w) as (h & w' & ->). eauto. Qed.

Lemma halts_bind_r {A B} (m : M A) (k : A -> M B) :
  (forall a, halts (k a)) -> halts (bind m k).
Proof.
  intros Hk w. unfold bind. destruct (m w) as [a w1|h w1]; [apply Hk | eauto].
Qed.

Lemma parent_only_ret {A} (a : A) : parent_only (ret a).
Proof.
  intros w. simpl. exists []. rewrite app_nil_r. split; [reflexivity|].
  apply not_elem_of_nil.
Qed.

Lemma parent_only_halts {A} (m : M A) : halts m -> parent_only m.
Proof. intros Hm w. destruct (Hm w) as (h & w' & ->). exact I. Qed.

Lemma parent_only_bind {A B} (m : M A) (k : A -> M B) :
  parent_only m -> (forall a, parent_only (k a)) -> parent_only (bind m k).
Proof.
  intros Hm Hk w. unfold bind. specialize (Hm w).
  destruct (m w) as [a w1|h w1]; [|exact I].
  destruct Hm as (tl1 & E1 & N1). specialize (Hk a w1).
  destruct (k a w1) as [b w2|h w2]; [|exact I].
  destruct Hk as (tl2 & E2 & N2). exists (tl1 ++ tl2).
  rewrite E2, E1, app_assoc. split; [reflexivity|].
  intros Hin. apply elem_of_app in Hin as [?|?]; contradiction.
Qed.

Lemma parent_only_quiet {A} (m : M A) : quiet m -> parent_only m.
Proof.
  intros Hq w. destruct (Hq w) as (tl & E & F & _).
  destruct (m w) as [a w1|h w1]; [|exact I]. simpl in E.
  exists tl. split; [exact E|]. intros Hin.
  rewrite Forall_forall in F. specialize (F _ Hin). discriminate.
Qed.

(** The continuation of a [fork]: what runs where it answered 0 must halt,
    what runs elsewhere must itself be parent-only. *)
Lemma parent_only_fork {B} (k : Z -> M B) :
  halts (k 0%Z) -> (forall pid, pid <> 0%Z -> parent_only (k pid)) ->
  parent_only (bind fork k).
Proof.
  intros H0 Hk w. unfold bind, fork.
  set (fr := match forks w with [] => _ | _ => _ end).
  destruct fr as [r rest]. destruct (Z.eq_dec r 0%Z) as [->|Hne].
  - match goal with |- match k 0%Z ?w1 with _ => _ end =>
      destruct (H0 w1) as (h & w' & ->) end. exact I.
  - match goal with |- match k r ?w1 with _ => _ end =>
      pose proof (Hk r Hne w1) as Hp; destruct (k r w1) as [b w2|h w2] end;
      [|exact I].
    destruct Hp as (tl & E & N). simpl in E. exists (Efork r :: tl).
    rewrite E, <- app_assoc. split; [reflexivity|].
    intros Hin. apply elem_of_cons in Hin as [Heq|?]; [|contradiction].
    inversion Heq. congruence.
Qed.

Lemma parent_only_emit e : e <> Efork 0 -> parent_only (emit e).
Proof.
  intros He w. simpl. exists [e]. split; [reflexivity|].
  intros Hin. apply elem_of_cons in Hin as [Heq|Hin]; [congruence|].
  inversion Hin.
Qed.

Lemma parent_only_ask {A} (f : oracle -> A) : parent_only (ask f).
Proof.
  intros w. simpl. exists []. rewrite app_nil_r.
  split; [reflexivity | apply not_elem_of_nil].
Qed.

Lemma parent_only_lift {A} (r : res A) : parent_only (lift r).
Proof.
  intros w. unfold lift. destruct r; [|exact I].
  exists []. rewrite app_nil_r. split; [reflexivity | apply not_elem_of_nil].
Qed.

Create HintDb parent.
#[local] Hint Resolve parent_only_ret parent_only_ask parent_only_lift : parent.
#[local] Hint Extern 1 (parent_only (emit _)) =>
  apply parent_only_emit; discriminate : parent.
#[local] Hint Extern 1 (parent_only (exit _)) =>
  apply parent_only_halts, halts_exit : parent.

Ltac parents :=
  repeat first
    [ solve [eauto with parent]
    | apply parent_only_bind; [|intros ?]
    | match goal with
      | |- parent_only (if ?b then _ else _) => destruct b
      | |- parent_only (match ?x with _ => _ end) => destruct x
      end ].

(** [execvp] either does not come back or answers -1. *)
Lemma execvp_returns file args w :
  (exists h w', execvp file args w = Halt h w') \/
  (exists w', execvp file args w = Ret (-1)%Z w').
Proof.
  unfold execvp, bind, emit, ask, lift, ret. simpl.
  destruct file as [| |f]; simpl; eauto.
  destruct (os_exec (os w) f); eauto.
Qed.

Lemma parent_only_run_sequence_command args bg :
  parent_only (run_sequence_command args bg).
Proof.
  unfold run_sequence_command. apply parent_only_fork.
  - simpl. intros w. unfold bind, lift.
    destruct (load args 0) as [a0|f]; [|eauto].
    destruct (execvp_returns a0 args w) as [(h & w' & ->)|(w' & ->)];
      [eauto|].
    simpl. unfold exit. eauto.
  - intros pid Hpid. destruct (Z.eqb_spec pid 0); [contradiction|].
    unfold perror, printf, waitpid_status. parents.
Qed.

Lemma parent_only_run_pipeline l : parent_only (run_pipeline l).
Proof.
  unfold run_pipeline, pipe, perror. apply parent_only_bind; [parents|].
  intros [[pipefd0 pipefd1]|]; [|parents].
  apply parent_only_fork.
  - apply halts_bind_l. simpl.
    repeat (apply halts_bind_r; intros ?). apply halts_exit.
  - intros pid1 H1. destruct (Z.eqb_spec pid1 0); [contradiction|].
    apply parent_only_bind; [parents|]. intros _.
    apply parent_only_fork.
    + apply halts_bind_l. simpl.
      repeat (apply halts_bind_r; intros ?). apply halts_exit.
    + intros pid2 H2. destruct (Z.eqb_spec pid2 0); [contradiction|].
      unfold waitpid_null, printf. parents.
Qed.

(** ** Builtins stay inside the interpreter *)

Lemma quiet_ret {A} (a : A) : quiet (ret a).
Proof.
  intros w. exists []. simpl. rewrite app_nil_r. repeat split. constructor.
Qed.

Lemma quiet_ask {A} (f : oracle -> A) : quiet (ask f).
Proof.
  intros w. exists []. simpl. rewrite app_nil_r. repeat split. constructor.
Qed.

Lemma quiet_lift {A} (r : res A) : quiet (lift r).
Proof.
  intros w. exists []. unfold lift. destruct r; simpl; rewrite app_nil_r;
    repeat split; constructor.
Qed.

Lemma quiet_emit e : process_event e = false -> quiet (emit e).
Proof.
  intros He w. exists [e]. simpl. repeat split. constructor; [exact He|].
  constructor.
Qed.

Lemma quiet_exit {A} code : quiet (@exit A code).
Proof.
  intros w. exists [Eexit code]. simpl. repeat split. repeat constructor.
Qed.

Lemma quiet_bind {A B} (m : M A) (k : A -> M B) :
  quiet m -> (forall a, quiet (k a)) -> quiet (bind m k).
Proof.
  intros Hm Hk w. unfold bind. destruct (Hm w) as (tl1 & E1 & F1 & K1).
  destruct (m w) as [a w1|h w1]; simpl in *; [|eauto].
  destruct (Hk a w1) as (tl2 & E2 & F2 & K2). exists (tl1 ++ tl2).
  rewrite E2, E1, app_assoc, K2, K1. repeat split.
  apply Forall_app_2; assumption.
Qed.

Create HintDb quiet.
#[local] Hint Resolve quiet_ret quiet_ask quiet_lift quiet_exit : quiet.
#[local] Hint Extern 1 (quiet (emit _)) =>
  apply quiet_emit; reflexivity : quiet.

Ltac quiets :=
  repeat first
    [ solve [eauto with quiet]
    | apply quiet_bind; [|intros ?]
    | match goal with
      | |- quiet (if ?b then _ else _) => destruct b
      | |- quiet (match ?x with _ => _ end) => destruct x
      end ].

Lemma quiet_change_directory args : quiet (change_directory args).
Proof. unfold change_directory, chdir_to, perror. quiets. Qed.

Lemma quiet_execute_builtin_command args :
  quiet (execute_builtin_command args).
Proof.
  unfold execute_builtin_command, printf.
  apply quiet_bind; [quiets|]. intros [| |name]; [quiets..|].
  destruct (String.eqb name "cd"); [apply quiet_change_directory|].
  destruct (String.eqb name "pwd"); [quiets|].
  destruct (String.eqb name "history"); [|quiets].
  intros w. exists (history_listing (history w) (history_count w)).
  simpl. repeat split. apply Forall_forall. intros e Hin.
  apply list_elem_of_In, in_map_iff in Hin as (k & <- & _). reflexivity.
Qed.

Lemma parent_only_dispatch l : parent_only (dispatch l).
Proof.
  unfold dispatch. apply parent_only_bind; [parents|]. intros a0.
  destruct (is_builtin a0);
    [apply parent_only_quiet, quiet_execute_builtin_command|].
  destruct (in_pipe l); [apply parent_only_run_pipeline|].
  destruct (has_second_command l).
  - apply parent_only_bind; [apply parent_only_run_sequence_command|].
    intros z. destruct (z =? 0)%Z; [|parents].
    apply parent_only_bind; [apply parent_only_run_sequence_command|].
    intros ?. parents.
  - apply parent_only_bind; [apply parent_only_run_sequence_command|].
    intros ?. parents.
Qed.

Lemma parent_only_process_command_line command :
  parent_only (process_command_line command).
Proof.
  unfold process_command_line. apply parent_only_bind.
  - intros w. unfold add_to_history.
    destruct (add_to_history_pure command (history w, history_count w)).
    exists []. simpl. rewrite app_nil_r.
    split; [reflexivity | apply not_elem_of_nil].
  - intros _. apply parent_only_bind; [parents|]. intros l.
    apply parent_only_dispatch.
Qed.

(** X6: a child never comes back to the prompt.  Whenever
    [process_command_line] returns, no [fork] made on the way answered 0:
    in a process where [fork] answered 0 the call ends in [execvp], in
    [exit] or in a fault. *)
Theorem X6_child_never_returns (command : string) (w w' : world) :
  process_command_line command w = Ret tt w' ->
  exists tl, trace w' = trace w ++ tl /\ Efork 0 ∉ tl.
Proof.
  intros H. pose proof (parent_only_process_command_line command w) as Hp.
  rewrite H in Hp. exact Hp.
Qed.

Lemma X6_child_never_returns_witness :
  exists tl,
    trace (world_of (process_command_line "make && ./a.out"
                       (init_world [100%Z; 101%Z] (friendly 0))))
    = [] ++ tl /\ Efork 0 ∉ tl.
Proof.
  eapply (X6_child_never_returns "make && ./a.out"
            (init_world [100%Z; 101%Z] (friendly 0))).
  vm_compute. reflexivity.
Defined.

(** X10: when the primary command that classification leaves in
    [left_args[0]], the cell line 169 tests, is a builtin name, the line
    stays inside the interpreter whatever its flags are: no [fork], [pipe],
    [execvp], [waitpid], [dup2] or [close] is made and no [fork] answer is
    consumed.  So the secondary command of [cd x | wc] or [pwd && ls] is
    never run.  (The hypothesis is on the classified cell, not on the first
    word of the line: on [pwd |] line 164 puts [NULL] into [left_args[0]].) *)
Theorem X10_builtin_line_creates_no_process
    (command : string) (l : locals) (w : world) (a0 : cptr) :
  classify command = OK l ->
  load (left_args l) 0 = OK a0 -> is_builtin a0 = true ->
  exists tl,
    trace (world_of (process_command_line command w)) = trace w ++ tl /\
    Forall (fun e => process_event e = false) tl /\
    forks (world_of (process_command_line command w)) = forks w.
Proof.
  intros Hc Hl Hb.
  rewrite (process_command_line_classified _ _ _ Hc).
  destruct (after_history_frame command w) as (Ff & Fo & Ft).
  unfold dispatch, bind, lift. rewrite Hl, Hb.
  destruct (quiet_execute_builtin_command (left_args l)
              (after_history command w)) as (tl & E & F & K).
  exists tl. rewrite E, K, Ft, Ff. auto.
Qed.

Lemma X10_builtin_line_creates_no_process_witness :
  (exists tl,
    trace (world_of (process_command_line "pwd && ls"
                       (init_world [100%Z] (friendly 0))))
    = [] ++ tl /\
    Forall (fun e => process_event e = false) tl /\
    forks (world_of (process_command_line "pwd && ls"
                       (init_world [100%Z] (friendly 0)))) = [100%Z]) /\
  (exists tl,
    trace (world_of (process_command_line "cd x | wc"
                       (init_world [100%Z; 101%Z] (friendly 0))))
    = [] ++ tl /\
    Forall (fun e => process_event e = false) tl /\
    forks (world_of (process_command_line "cd x | wc"
                       (init_world [100%Z; 101%Z] (friendly 0))))
    = [100%Z; 101%Z]).
Proof.
  split.
  - refine (X10_builtin_line_creates_no_process "pwd && ls"
              (mkLocals
                 (<[1 := NULL]> (<[0 := Tok "pwd"]> fresh_argv))
                 (<[1 := NULL]> fresh_argv)
                 (<[1 := NULL]> (<[0 := Tok "ls"]> fresh_argv))
                 1 1 false false true)
              (init_world [100%Z] (friendly 0)) (Tok "pwd") _ _ _);
      vm_compute; reflexivity.
  - refine (X10_builtin_line_creates_no_process "cd x | wc"
              (mkLocals
                 (<[1 := NULL]>
                    (<[2 := NULL]>
                       (<[1 := Tok "x"]> (<[0 := Tok "cd"]> fresh_argv))))
                 (<[1 := NULL]> (<[0 := Tok "wc"]> fresh_argv))
                 (<[0 := NULL]> fresh_argv)
                 0 1 true false false)
              (init_world [100%Z; 101%Z] (friendly 0)) (Tok "cd") _ _ _);
      vm_compute; reflexivity.
Defined.

(** ** The prompt loop *)

Lemma main_nil w : main [] w = Ret 0%Z (prompted w).
Proof.
  unfold main, bind, printf, emit, prompted. simpl. rewrite <- app_assoc.
  reflexivity.
Qed.

Lemma main_cons command rest w :
  main (command :: rest) w
  = bind (process_command_line (cut_newline command)) (fun _ => main rest)
         (prompted w).
Proof.
  change (main (command :: rest))
    with (bind (printf "myshell> " [])
            (fun _ => bind (emit Efflush)
               (fun _ => bind (process_command_line (cut_newline command))
                              (fun _ => main rest)))).
  unfold bind at 1 2. unfold printf, emit, prompted. simpl.
  rewrite <- app_assoc. reflexivity.
Qed.

(** X11: when the primary command that classification leaves in
    [left_args[0]], the cell line 169 tests, is [exit], the interpreter ends
    with status 0 right after the farewell message, whatever lines are still
    to be read; nothing is forked.  (The hypothesis is on the classified
    cell, not on the first word of the line: on [exit |] line 164 puts
    [NULL] into [left_args[0]].) *)
Theorem X11_exit_stops_the_interpreter
    (command : string) (rest : list string) (l : locals) (w : world) :
  classify (cut_newline command) = OK l ->
  load (left_args l) 0 = OK (Tok "exit") ->
  exists w',
    main (command :: rest) w = Halt (Hexit 0) w' /\
    trace w' = trace w ++ [Eprintf "myshell> " []; Efflush;
                           Eprintf "Exiting...\n" []; Eexit 0] /\
    forks w' = forks w.
Proof.
  intros Hc Hl. rewrite main_cons. unfold bind at 1.
  rewrite (process_command_line_classified _ _ _ Hc).
  destruct (after_history_frame (cut_newline command) (prompted w))
    as (Ff & Fo & Ft).
  unfold dispatch, bind, lift. rewrite Hl. simpl.
  unfold execute_builtin_command, bind, lift. rewrite Hl. simpl.
  eexists. split; [reflexivity|]. simpl. rewrite Ft, Ff. simpl.
  rewrite <- !app_assoc. auto.
Qed.

Lemma X11_exit_stops_the_interpreter_witness :
  exists w',
    main ["exit now"; "ls"] (init_world [100%Z] (friendly 0))
    = Halt (Hexit 0) w' /\
    trace w' = [] ++ [Eprintf "myshell> " []; Efflush;
                      Eprintf "Exiting...\n" []; Eexit 0] /\
    forks w' = [100%Z].
Proof.
  refine (X11_exit_stops_the_interpreter "exit now" ["ls"]
            (mkLocals
               (<[2 := NULL]>
                  (<[1 := Tok "now"]> (<[0 := Tok "exit"]> fresh_argv)))
               (<[2 := NULL]> fresh_argv)
               (<[0 := NULL]> fresh_argv)
               0 2 false false false)
            (init_world [100%Z] (friendly 0)) _ _);
    vm_compute; reflexivity.
Defined.

Lemma parent_only_main stdin : parent_only (main stdin).
Proof.
  induction stdin as [|c rest IH]; intros w.
  - rewrite main_nil. eexists. split; [reflexivity|].
    intros Hin. repeat (apply elem_of_cons in Hin as [Hin|Hin];
                        [discriminate|]). inversion Hin.
  - rewrite main_cons.
    pose proof (parent_only_bind _ _
                  (parent_only_process_command_line (cut_newline c))
                  (fun _ => IH) (prompted w)) as Hp.
    destruct (bind _ _ (prompted w)) as [z w'|h w']; [|exact I].
    destruct Hp as (tl & E & N). simpl in E.
    exists ([Eprintf "myshell> " []; Efflush] ++ tl).
    rewrite E, <- app_assoc. split; [reflexivity|].
    intros Hin. apply elem_of_app in Hin as [Hin|Hin]; [|contradiction].
    repeat (apply elem_of_cons in Hin as [Hin|Hin]; [discriminate|]).
    inversion Hin.
Qed.

(** X12: when [main] returns, it returns 0, it is still the original
    interpreter (no [fork] made on the way answered 0), and the history is
    what [add_to_history] makes of the lines read, one call per line, each
    line cut at its newline. *)
Theorem X12_main_returns_at_end_of_input
    (stdin : list string) (w w' : world) (z : Z) :
  main stdin w = Ret z w' ->
  z = 0%Z /\
  (history w', history_count w')
  = add_all (map cut_newline stdin) (history w, history_count w) /\
  exists tl, trace w' = trace w ++ tl /\ Efork 0 ∉ tl.
Proof.
  intros H. split; [|split].
  - revert w H. induction stdin as [|c rest IH]; intros w H.
    + rewrite main_nil in H. inversion H. reflexivity.
    + rewrite main_cons in H. unfold bind in H.
      destruct (process_command_line (cut_newline c) (prompted w));
        [eauto | discriminate].
  - revert w H. induction stdin as [|c rest IH]; intros w H.
    + rewrite main_nil in H. inversion H. reflexivity.
    + rewrite main_cons in H. unfold bind in H.
      pose proof (process_command_line_history (cut_newline c) (prompted w))
        as Hh.
      destruct (process_command_line (cut_newline c) (prompted w))
        as [u w1|h w1]; [|discriminate].
      simpl in Hh. rewrite (IH _ H), Hh. reflexivity.
  - pose proof (parent_only_main stdin w) as Hp. rewrite H in Hp. exact Hp.
Qed.

Lemma X12_main_returns_at_end_of_input_witness :
  (0 = 0)%Z /\
  (["ls"; "pwd"; ""; ""; ""; ""; ""; ""; ""; ""], 2)
  = add_all (map cut_newline ["ls"; "pwd"]) (init_history, 0).
Proof.
  destruct (X12_main_returns_at_end_of_input ["ls"; "pwd"]
              (init_world [100%Z] (friendly 0))
              (mkWorld ["ls"; "pwd"; ""; ""; ""; ""; ""; ""; ""; ""] 2 []
                 (friendly 0)
                 [Eprintf "myshell> " []; Efflush; Efork 100; Ewaitpid 100;
                  Eprintf "myshell> " []; Efflush; Egetcwd;
                  Eprintf "%s\n" [PStr "/tmp"];
                  Eprintf "myshell> " []; Efflush])
              0%Z) as (Hz & Hh & _).
  - vm_compute. reflexivity.
  - split; [exact Hz | exact Hh].
Defined.

(** ** Directory change *)

(** The test [args[1][0] == '/'] of line 45, which the embedding writes as a
    pattern on the first character. *)
Lemma change_directory_word args p w :
  load args 1 = OK (Tok p) ->
  change_directory args w
  = if is_absolute p then chdir_to p false w
    else bind (emit Egetcwd)
           (fun _ => bind (ask os_getcwd) (fun cwd =>
              match cwd with
              | None => perror "getcwd"
              | Some current_directory =>
                  bind (emit Emalloc) (fun _ => bind (ask os_malloc)
                    (fun ok : bool =>
                       if ok
                       then chdir_to (current_directory +:+ "/" +:+ p) true
                       else perror "malloc"))
              end)) w.
Proof.
  intros Hl. unfold change_directory. unfold bind at 1. unfold lift.
  rewrite Hl. destruct p as [|c p]; [reflexivity|].
  destruct c as [[] [] [] [] [] [] [] []]; reflexivity.
Qed.

Lemma chdir_to_trace path allocated w :
  chdir_to path allocated w
  = Ret tt (mkWorld (history w) (history_count w) (forks w) (os w)
              (trace w ++ chdir_outcome (os w) path
                       ++ (if allocated then [Efree] else []))).
Proof.
  unfold chdir_to, bind, emit, ask, perror, emit, ret, chdir_outcome. simpl.
  destruct (os_chdir (os w) path), allocated; simpl;
    rewrite <- ?app_assoc; simpl; rewrite ?app_nil_r; reflexivity.
Qed.

(** What [change_directory] adds to the trace, case by case. *)
Lemma change_directory_trace args w :
  exists tl,
    trace (world_of (change_directory args w)) = trace w ++ tl /\
    (tl = [] \/
     tl = [Egetenv "HOME";
           Efprintf_stderr "HOME environment variable not set\n"] \/
     (exists h, tl = Egetenv "HOME" :: chdir_outcome (os w) h) \/
     (exists p, tl = chdir_outcome (os w) p) \/
     tl = [Egetcwd; Eperror "getcwd"] \/
     (tl = [Egetcwd; Emalloc; Eperror "malloc"] /\ os_malloc (os w) = false) \/
     (exists p, tl = [Egetcwd; Emalloc] ++ chdir_outcome (os w) p ++ [Efree]
                /\ os_malloc (os w) = true)).
Proof.
  assert (Hnorm : forall (a b c : list event), (a ++ b) ++ c = a ++ b ++ c)
    by (intros; symmetry; apply app_assoc).
  destruct (load args 1) as [[| |p]|f] eqn:Hl.
  - exfalso. unfold load in Hl. destruct (args !! 1) as [[| |s]|]; discriminate.
  - unfold change_directory. unfold bind at 1. unfold lift. rewrite Hl.
    unfold bind, emit, ask. simpl.
    destruct (os_home (os w)) as [h|]; simpl.
    + exists (Egetenv "HOME" :: chdir_outcome (os w) h).
      rewrite chdir_to_trace. simpl. rewrite ?app_nil_r, ?Hnorm.
      split; [reflexivity|]. right. right. left. eauto.
    + exists [Egetenv "HOME";
              Efprintf_stderr "HOME environment variable not set\n"].
      rewrite ?Hnorm. split; [reflexivity|]. auto.
  - rewrite (change_directory_word _ _ _ Hl).
    destruct (is_absolute p).
    + exists (chdir_outcome (os w) p).
      rewrite chdir_to_trace. simpl. rewrite ?app_nil_r, ?Hnorm.
      split; [reflexivity|]. do 3 right. left. eauto.
    + unfold bind, emit, ask, perror, emit. simpl.
      destruct (os_getcwd (os w)) as [cwd|]; simpl.
      * destruct (os_malloc (os w)) eqn:Hm; simpl.
        -- exists ([Egetcwd; Emalloc]
                   ++ chdir_outcome (os w) (cwd +:+ "/" +:+ p) ++ [Efree]).
           rewrite chdir_to_trace. simpl. rewrite ?app_nil_r, ?Hnorm.
           split; [reflexivity|]. do 6 right. eauto.
        -- exists [Egetcwd; Emalloc; Eperror "malloc"].
           rewrite ?Hnorm. split; [reflexivity|].
           do 5 right. left. auto.
      * exists [Egetcwd; Eperror "getcwd"].
        rewrite ?Hnorm. split; [reflexivity|].
        do 4 right. left. reflexivity.
  - unfold change_directory, bind, lift. rewrite Hl. simpl.
    exists []. rewrite app_nil_r. auto.
Qed.

(** X13: [change_directory] keeps its books.  [PWD] is set to a path
    exactly when [chdir] was called on that path and succeeded, [chdir] is
    called on at most one path, and [free] is called exactly when [malloc]
    was called and succeeded, so the home directory and an absolute
    argument are never freed and the joined path never leaks. *)
Theorem X13_change_directory_bookkeeping (args : argv) (w : world) :
  exists tl,
    trace (world_of (change_directory args w)) = trace w ++ tl /\
    (forall p, Esetenv "PWD" p ∈ tl <->
               Echdir p ∈ tl /\ os_chdir (os w) p = true) /\
    (forall p q, Echdir p ∈ tl -> Echdir q ∈ tl -> p = q) /\
    (Efree ∈ tl <-> Emalloc ∈ tl /\ os_malloc (os w) = true).
Proof.
  destruct (change_directory_trace args w) as (tl & E & Hcases).
  exists tl. split; [exact E|]. unfold chdir_outcome in Hcases.
  destruct Hcases as [->|[->|[(h & ->)|[(p0 & ->)|[->|[(-> & Hm)|(p0 & -> & Hm)]]]]]];
    simpl; (split; [|split]);
    try (intros p; split; [intros Hin | intros (Hin & Hok)]);
    try (intros p q Hin Hin2);
    try (split; [intros Hin | intros (Hin & Hok)]);
    repeat match goal with
           | H : _ ∈ [] |- _ => inversion H
           | H : _ ∈ _ :: _ |- _ => apply elem_of_cons in H as [H|H]
           | H : Esetenv _ _ = (if ?b then _ else _) |- _ =>
               destruct b eqn:?; inversion H; subst; clear H
           | H : (if ?b then _ else _) = _ |- _ =>
               destruct b eqn:?; inversion H; subst; clear H
           | H : _ = (if ?b then _ else _) |- _ =>
               destruct b eqn:?; inversion H; subst; clear H
           | H : @eq event _ _ |- _ => inversion H; subst; clear H
           end;
    try congruence; try reflexivity;
    repeat match goal with
           | |- _ /\ _ => split
           | H : os_chdir ?o ?p = true |- context [os_chdir ?o ?p] =>
               rewrite H
           | |- _ ∈ _ :: _ => apply elem_of_cons
           | |- ?x = ?x \/ _ => left; reflexivity
           | |- _ \/ _ => right
           end; auto; try congruence.
Qed.

Lemma argv_list_load arr : forall ts k t,
  argv_list arr = ts -> ts !! k = Some t -> load arr k = OK (Tok t).
Proof.
  induction arr as [|c arr IH]; intros ts k t Ha Hk; simpl in Ha; subst ts.
  - destruct k; discriminate.
  - destruct c as [| |s]; try (destruct k; discriminate).
    destruct k as [|k]; simpl in Hk.
    + inversion Hk; subst. reflexivity.
    + unfold load. simpl. apply (IH _ _ _ eq_refl Hk).
Qed.

(** X14: [cd p more...] looks at its first argument only.  An absolute path
    is handed to [chdir] as it is, without consulting the current
    directory; a relative one is handed over as the current directory, a
    slash and the argument; [PWD] is set to the same path when [chdir]
    succeeds. *)
Theorem X14_cd_resolves_its_argument
    (command p : string) (more : list string) (w : world) :
  strtok command = "cd" :: p :: more -> ordinary (p :: more) ->
  length more + 2 < MAX_ARGS ->
  trace (world_of (process_command_line command w))
  = trace w ++
    if is_absolute p then chdir_outcome (os w) p
    else match os_getcwd (os w) with
         | None => [Egetcwd; Eperror "getcwd"]
         | Some cwd =>
             if os_malloc (os w)
             then [Egetcwd; Emalloc]
                  ++ chdir_outcome (os w) (cwd +:+ "/" +:+ p) ++ [Efree]
             else [Egetcwd; Emalloc; Eperror "malloc"]
         end.
Proof.
  intros Htok (O1 & O2 & O3) Hlen.
  assert (Hord : ordinary ("cd" :: p :: more)).
  { repeat split; intros Hin; apply elem_of_cons in Hin as [Hin|Hin];
      try discriminate; auto. }
  destruct (classify_plain _ Hord) as (l & Hc & _ & _ & _ & Hargs);
    [simpl; lia|].
  assert (Hcl : classify command = OK l)
    by (unfold classify; rewrite Htok; exact Hc).
  pose proof (argv_list_load _ _ 0 "cd" Hargs eq_refl) as H0.
  pose proof (argv_list_load _ _ 1 p Hargs eq_refl) as H1.
  rewrite (process_command_line_classified _ _ _ Hcl).
  destruct (after_history_frame command w) as (Ff & Fo & Ft).
  revert Fo Ft. generalize (after_history command w). intros wh Fo Ft.
  unfold dispatch. unfold bind at 1. unfold lift. rewrite H0. simpl.
  unfold execute_builtin_command. unfold bind at 1. unfold lift. rewrite H0.
  simpl. rewrite (change_directory_word _ _ _ H1).
  assert (Hnorm : forall (a b c : list event), (a ++ b) ++ c = a ++ b ++ c)
    by (intros; symmetry; apply app_assoc).
  destruct (is_absolute p).
  - rewrite chdir_to_trace. simpl. rewrite ?Fo, ?Ft, ?app_nil_r. reflexivity.
  - unfold bind, emit, ask, perror, emit. simpl. rewrite Fo.
    destruct (os_getcwd (os w)) as [cwd|]; simpl.
    + destruct (os_malloc (os w)); simpl.
      * rewrite chdir_to_trace. simpl. rewrite ?Fo, ?Ft, ?Hnorm. reflexivity.
      * rewrite ?Ft, ?Hnorm. reflexivity.
    + rewrite ?Ft, ?Hnorm. reflexivity.
Qed.

Lemma X14_cd_resolves_its_argument_witness :
  trace (world_of (process_command_line "cd sub"
                     (init_world [] (friendly 0))))
  = [] ++ [Egetcwd; Emalloc] ++ chdir_outcome (friendly 0) "/tmp/sub"
       ++ [Efree].
Proof.
  refine (X14_cd_resolves_its_argument "cd sub" "sub" []
            (init_world [] (friendly 0)) _ _ _).
  - vm_compute; reflexivity.
  - repeat split; intros Hin;
      repeat (apply elem_of_cons in Hin as [Hin|Hin]; [discriminate|]);
      inversion Hin.
  - vm_compute; lia.
Defined.

(** ** Argument lists of two-command lines *)

Lemma loop_body_operator_left t l l1 :
  loop_body t l = OK (Continue l1) -> t = "|" \/ t = "&&" ->
  j l < MAX_ARGS /\ left_args l1 = <[j l := NULL]> (left_args l).
Proof.
  intros H [-> | ->]; loop_cases H; try congruence;
    apply store_OK in Hst as (? & ->); auto.
Qed.




(** X16: on a line [a && b] of ordinary words both lists are kept whole:
    the primary array holds the words of [a] followed by the [NULL] end
    marker, the sequence-secondary array holds the words of [b] followed by
    the [NULL] end marker, and only the sequence flag is set. *)
Theorem X16_sequence_lists_are_whole
    (a b : list string) (p : locals) :
  ordinary a -> "|" ∉ b -> "&&" ∉ b ->
  classify_tokens (a ++ "&&" :: b) = OK p ->
  c_argv (left_args p) = Some a /\ c_argv (second_command p) = Some b /\
  left_args p !! length a = Some NULL /\
  second_command p !! length b = Some NULL /\
  has_second_command p = true /\ in_pipe p = false /\ background p = false.
Proof.
  intros (A1 & A2 & A3) B1 B2 H.
  destruct (classify_after_sequence_through _ _ _
              (scanned_through_no_amp _ A1) A2 B1 B2 H)
    as (Fs & Fp & Fb & _ & Hsecond).
  assert (Hleft : c_argv (left_args p) = Some a).
  { apply classify_tokens_inv in H as (l & Hs & Ht).
    rewrite scan_app in Hs by (right; exact A1).
    apply res_bind_OK in Hs as (l1 & Hs1 & Hs).
    apply scan_cons_continue in Hs as (l2 & E2 & Hs); [|discriminate].
    destruct (scan_args _ _ _ Hs1 A2 A3 (or_introl A1) wf_init_locals)
      as ((Wl1 & _) & Ep1 & _ & _ & Hrun1).
    simpl in Ep1, Hrun1. destruct Hrun1 as (Hj1 & Htake1 & _).
    pose proof (scan_heads_inv _ _ _ Hs1 heads_inv_init) as Hinv1.
    pose proof (loop_body_heads_inv _ _ _ E2 Hinv1) as (W2 & _).
    pose proof (loop_body_flags _ _ _ E2) as (_ & Ep2 & Es2 & _).
    rewrite orb_true_r in Es2. rewrite Ep1 in Ep2. simpl in Ep2.
    destruct (loop_body_operator_left _ _ _ E2 (or_intror eq_refl))
      as (Hk1 & Hl2).
    apply loop_body_operator in E2 as (_ & _ & Hj2); [|auto]. simpl in Hj2.
    destruct Hj2 as (_ & Hj2).
    destruct (scan_args _ _ _ Hs B1 B2) as (_ & _ & _ & _ & Hrun); auto.
    { right. rewrite Es2. apply orb_true_r. }
    rewrite Ep2, Es2 in Hrun. destruct Hrun as (_ & _ & Hl & _ & Hj).
    destruct (terminate_lists_arrays _ _ Ht) as (Hk & _ & Hlp & _).
    rewrite Hlp, Hl, Hl2, Hj, Hj2.
    apply c_argv_terminated.
    - rewrite length_insert. lia.
    - rewrite take_insert_ge by lia. exact Htake1. }
  split; [exact Hleft|]. split; [exact Hsecond|].
  split; [exact (c_argv_end _ _ Hleft)|].
  split; [exact (c_argv_end _ _ Hsecond)|]. auto.
Qed.

Lemma X16_sequence_lists_are_whole_witness :
  exists p, classify "gcc -o t main.c && ./t" = OK p /\
            c_argv (left_args p) = Some ["gcc"; "-o"; "t"; "main.c"] /\
            c_argv (second_command p) = Some ["./t"].
Proof.
  eexists. split; [vm_compute; reflexivity|].
  refine ((fun H => conj (proj1 H) (proj1 (proj2 H)))
            (X16_sequence_lists_are_whole
               ["gcc"; "-o"; "t"; "main.c"] ["./t"] _ _ _ _ _)).
  - repeat split; intros Hin;
      repeat (apply elem_of_cons in Hin as [Hin|Hin]; [discriminate|]);
      inversion Hin.
  - intros Hin.
    repeat (apply elem_of_cons in Hin as [Hin|Hin]; [discriminate|]).
    inversion Hin.
  - intros Hin.
    repeat (apply elem_of_cons in Hin as [Hin|Hin]; [discriminate|]).
    inversion Hin.
  - vm_compute; reflexivity.
Defined.

(** ** History rows and the line terminator *)

Lemma substring_length_le n : forall s, String.length (substring 0 n s) <= n.
Proof.
  induction n as [|n IH]; intros [|c s]; simpl; try lia.
  specialize (IH s). lia.
Qed.

Lemma shift_loop_fits ks : forall h,
  rows_fit h ->
  rows_fit (fold_left (fun h k => <[k := default "" (h !! (k + 1))]> h) ks h).
Proof.
  induction ks as [|k ks IH]; intros h Hh; simpl; [exact Hh|].
  apply IH. apply Forall_insert; [exact Hh|].
  destruct (h !! (k + 1)) as [s|] eqn:E; simpl.
  - unfold rows_fit in Hh. rewrite Forall_forall in Hh. apply Hh.
    apply list_elem_of_lookup. eauto.
  - unfold MAX_COMMAND_LENGTH. lia.
Qed.

(** X17: every row of the history array always holds a string shorter than
    the row ([MAX_COMMAND_LENGTH] bytes with the terminator), however long
    the submitted command is, so the [strcpy] calls of the shift loop never
    write past a row. *)
Theorem X17_history_rows_fit (command : string) (w : world) :
  rows_fit (history w) ->
  rows_fit (history (world_of (process_command_line command w))) /\
  String.length (strncpy_terminated command) < MAX_COMMAND_LENGTH.
Proof.
  intros Hh.
  assert (Hs : String.length (strncpy_terminated command)
               < MAX_COMMAND_LENGTH).
  { unfold strncpy_terminated.
    pose proof (substring_length_le (MAX_COMMAND_LENGTH - 1) command).
    unfold MAX_COMMAND_LENGTH in *. simpl in *. lia. }
  split; [|exact Hs].
  pose proof (process_command_line_history command w) as Hp.
  apply (f_equal fst) in Hp. simpl in Hp. rewrite Hp.
  unfold add_to_history_pure.
  destruct (history_count w =? HISTORY_SIZE); simpl;
    apply Forall_insert; auto.
  apply shift_loop_fits. exact Hh.
Qed.

Lemma X17_history_rows_fit_witness :
  rows_fit (history (world_of (process_command_line "ls -l"
                                 (init_world [100%Z] (friendly 0))))).
Proof.
  refine (proj1 (X17_history_rows_fit "ls -l"
                   (init_world [100%Z] (friendly 0)) _)).
  repeat constructor.
Defined.

(** X18: cutting a line at its newline keeps exactly the characters before
    the first newline: the result holds no newline, the input is the result
    followed by nothing or by a newline and a rest, and a line without
    newline is unchanged. *)
Theorem X18_cut_newline_is_the_first_line (s : string) :
  ("010"%char ∉ chars (cut_newline s)) /\
  (exists rest, s = cut_newline s +:+ rest /\
                (rest = "" \/ exists r, rest = String "010" r)) /\
  ("010"%char ∉ chars s -> cut_newline s = s).
Proof.
  induction s as [|c s (IH1 & (rest & IH2 & IH3) & IH4)]; simpl.
  - split; [apply not_elem_of_nil|]. split; [|reflexivity].
    exists "". auto.
  - destruct (Ascii.eqb_spec c "010") as [->|Hc]; simpl.
    + split; [apply not_elem_of_nil|]. split.
      * exists (String "010" s). split; [reflexivity | eauto].
      * intros Hn. exfalso. apply Hn, elem_of_cons. auto.
    + split; [|split].
      * intros Hin. apply elem_of_cons in Hin as [?|?];
          [congruence | contradiction].
      * exists rest. rewrite append_cons, <- IH2. auto.
      * intros Hn. rewrite IH4; [reflexivity|].
        intros Hin. apply Hn, elem_of_cons. auto.
Qed.

(** X19: from an empty history, after any number of lines that fit the
    command buffer, the [history] listing shows the last [HISTORY_SIZE] of
    them (all of them when there are fewer), oldest first and numbered from
    1, and [history_count] is the number of lines capped at
    [HISTORY_SIZE]. *)
Theorem X19_history_lists_last_lines (lines : list string) :
  Forall (fun s => String.length s < MAX_COMMAND_LENGTH) lines ->
  (add_all lines (init_history, 0)).2 = min (length lines) HISTORY_SIZE /\
  history_listing (add_all lines (init_history, 0)).1
                  (add_all lines (init_history, 0)).2
  = numbered 1 (lastn HISTORY_SIZE lines).
Proof. apply history_after_lines. Qed.

Lemma X19_history_lists_last_lines_witness :
  history_listing (add_all ["ls"; "pwd"; "history"] (init_history, 0)).1
                  (add_all ["ls"; "pwd"; "history"] (init_history, 0)).2
  = numbered 1 (lastn HISTORY_SIZE ["ls"; "pwd"; "history"]).
Proof.
  refine (proj2 (X19_history_lists_last_lines ["ls"; "pwd"; "history"] _)).
  repeat constructor.
Defined.
